(** * deco.py: call counting, memoisation, n-ary folding and call tracing

    A shallow embedding of [deco.py].  A Python function object is a record
    of its name, its docstring and its call behaviour; calling it is a
    computation over the attributes that the decorators hang on their
    wrappers, with Python exceptions as a second outcome. *)

From Stdlib Require Import ZArith Lia.
From stdpp Require Import base option list strings gmap pretty.

Open Scope Z_scope.

(** ** What the decorators ask of argument values

    [hash(args)] on the tuple of positional arguments ([None]: some argument
    is unhashable and the builtin raises) and [str], used by '%s' and
    [print]. *)
Class PyValue (V : Type) := {
  hash : list V -> option Z;
  str : V -> string;
}.

(** ** Exceptions and outcomes *)

Inductive exn :=
  | TypeError (msg : string)
  | KeyError (key : Z)
  | RecursionError
  | Exception (msg : string).

Inductive outcome (A : Type) :=
  | Returns (a : A)
  | Raises (e : exn).
Arguments Returns {A} a.
Arguments Raises {A} e.

(** ** The attributes the wrappers of one decorated function carry

    [foo], [bar] and [fib] have each wrappers of their own, and so a store
    of their own.  [ticks] is ghost state: no wrapper and no function of the
    module reads or writes it. *)

Section Store.
Context {V : Type}.

Record store := Store {
  calls : Z;               (* countcalls: wrapper.calls *)
  cache : gmap Z V;        (* memo: wrapper.cache *)
  depth : Z;               (* trace: real_decorator.depth *)
  stdout : list string;    (* what print has written, one entry per call *)
  ticks : nat;             (* ghost: written only by [probe] *)
}.

Definition set_calls (f : Z -> Z) (s : store) : store :=
  Store (f (calls s)) (cache s) (depth s) (stdout s) (ticks s).
Definition set_cache (f : gmap Z V -> gmap Z V) (s : store) : store :=
  Store (calls s) (f (cache s)) (depth s) (stdout s) (ticks s).
Definition set_depth (f : Z -> Z) (s : store) : store :=
  Store (calls s) (cache s) (f (depth s)) (stdout s) (ticks s).
Definition set_stdout (f : list string -> list string) (s : store) : store :=
  Store (calls s) (cache s) (depth s) (f (stdout s)) (ticks s).
Definition set_ticks (f : nat -> nat) (s : store) : store :=
  Store (calls s) (cache s) (depth s) (stdout s) (f (ticks s)).

(** The state right after decoration: [wrapper.calls = 0],
    [wrapper.cache = {}], [real_decorator.depth = 0], nothing printed. *)
Definition fresh : store := Store 0 ∅ 0 [] 0%nat.
End Store.
Arguments store V : clear implicits.

(** ** Computations *)

Definition Py (V A : Type) : Type := store V -> outcome A * store V.

Definition py_ret {V A} (a : A) : Py V A := fun s => (Returns a, s).

Definition py_bind {V A B} (k : A -> Py V B) (m : Py V A) : Py V B :=
  fun s =>
    match m s with
    | (Returns a, s') => k a s'
    | (Raises e, s') => (Raises e, s')
    end.

#[global] Instance Py_ret V : MRet (Py V) := @py_ret V.
#[global] Instance Py_bind V : MBind (Py V) := @py_bind V.

Definition raise {V A} (e : exn) : Py V A := fun s => (Raises e, s).
Definition gets {V A} (f : store V -> A) : Py V A := fun s => (Returns (f s), s).
Definition modify {V} (f : store V -> store V) : Py V unit := fun s => (Returns tt, f s).

(** ** Function objects *)

Section Decorators.
Context {V : Type} `{!PyValue V}.

Definition kwargs : Type := list (string * V).

Record pyfun := {
  __name__ : string;
  __doc__ : option string;
  call : list V -> kwargs -> Py V V;
}.

(** A [def] statement: the name, the optional docstring and the body, which
    receives the positional and the keyword arguments. *)
Definition def (name : string) (doc : option string)
    (body : list V -> kwargs -> Py V V) : pyfun :=
  {| __name__ := name; __doc__ := doc; call := body |}.

(** [functools.wraps(wrapped)] applied to [wrapper]: name and docstring are
    taken over from [wrapped], the behaviour stays the wrapper's. *)
Definition wraps (wrapped wrapper : pyfun) : pyfun :=
  {| __name__ := __name__ wrapped;
     __doc__ := __doc__ wrapped;
     call := call wrapper |}.

(** *** [disable] and [decorator] *)

Definition disable (func : pyfun) : pyfun :=
  wraps func (def "wrapper" None (fun args kwargs =>
    call func args kwargs)).

Definition decorator (func : pyfun) : pyfun :=
  wraps func (def "wrapper" None (fun args kwargs =>
    result ← call func args kwargs;
    mret result)).

(** *** [countcalls] *)

Definition countcalls (func : pyfun) : pyfun :=
  wraps func (def "wrapper" None (fun args kwargs =>
    result ← call func args kwargs;
    modify (set_calls (fun c => c + 1));;
    mret result)).

(** *** [memo] *)

(** [hash(args)]. *)
Definition hash_args (args : list V) : Py V Z :=
  match hash args with
  | Some h => mret h
  | None => raise (TypeError "unhashable type")
  end.

(** [wrapper.cache[h]]. *)
Definition cache_getitem (h : Z) : Py V V :=
  c ← gets cache;
  match c !! h with
  | Some v => mret v
  | None => raise (KeyError h)
  end.

(** [wrapper.cache[h] = v]. *)
Definition cache_setitem (h : Z) (v : V) : Py V unit :=
  modify (set_cache (fun c => <[h := v]> c)).

Definition memo (func : pyfun) : pyfun :=
  wraps func (def "wrapper" None (fun args kwargs =>
    h ← hash_args args;
    c ← gets cache;
    (if decide (h ∉ dom c)
     then v ← call func args kwargs; cache_setitem h v
     else mret tt);;
    result ← cache_getitem h;
    mret result)).

(** *** [n_ary_func] and [n_ary] *)

Fixpoint n_ary_func (function : pyfun) (sequence : list V) : Py V V :=
  match sequence with
  | [x] => mret x
  | x :: (_ :: _) as rest =>
      r ← n_ary_func function rest;
      call function [x; r] []
  | [] => raise (TypeError (__name__ function +:+ "() of empty sequence"))
  end.

(** The wrapper of [n_ary] takes positional arguments only: a keyword
    argument is refused by the call itself. *)
Definition n_ary (func : pyfun) : pyfun :=
  wraps func (def "wrapper" None (fun args kwargs =>
    match kwargs with
    | [] => n_ary_func func args
    | (k, _) :: _ =>
        raise (TypeError (__name__ func +:+ "() got an unexpected keyword argument '" +:+ k +:+ "'"))
    end)).

(** *** [trace] *)

(** [s * n] on a string. *)
Definition str_mul (s : string) (n : Z) : string :=
  String.concat "" (replicate (Z.to_nat n) s).

(** The formats ['%s(%s)'] and ['%s(%s) == '] applied to the name and the
    unpacked arguments; [close] is what follows the second place.  Two
    places ask for exactly two items. *)
Definition format_call (close : string) (name : string) (args : list V)
    : Py V string :=
  match args with
  | [a] => mret (name +:+ "(" +:+ str a +:+ close)
  | [] => raise (TypeError "not enough arguments for format string")
  | _ :: _ :: _ =>
      raise (TypeError "not all arguments converted during string formatting")
  end.

(** [print(item, ...)]: the items separated by one space. *)
Definition print (items : list string) : Py V unit :=
  modify (set_stdout (fun out => out ++ [String.concat " " items])).

(** [trace(indent)(func)]; [real_decorator.depth = 0] is part of [fresh]. *)
Definition trace (indent : string) (func : pyfun) : pyfun :=
  wraps func (def "wrapper" None (fun args kwargs =>
    d ← gets depth;
    shown ← format_call ")" (__name__ func) args;
    print [str_mul indent d; "-->"; shown];;
    modify (set_depth (fun d => d + 1));;
    result ← call func args kwargs;
    modify (set_depth (fun d => d - 1));;
    d ← gets depth;
    shown ← format_call ") == " (__name__ func) args;
    print [str_mul indent d; "<--"; shown; str result];;
    mret result)).

(** *** Binding arguments to the parameters of a [def]

    The checks a call makes before the body of [def name(params)] runs,
    in the interpreter's order; its messages are abridged. *)
Definition bind_params (name : string) (params : list string)
    (args : list V) (kw : kwargs) : Py V (list V) :=
  let given := take (length args) params in
  match List.find (fun kv => bool_decide (kv.1 ∉ params ∨ kv.1 ∈ given)) kw with
  | Some (k, _) =>
      if decide (k ∈ params)
      then raise (TypeError (name +:+ "() got multiple values for argument '" +:+ k +:+ "'"))
      else raise (TypeError (name +:+ "() got an unexpected keyword argument '" +:+ k +:+ "'"))
  | None =>
      if decide (length params < length args)%nat
      then raise (TypeError (name +:+ "() takes " +:+ pretty (length params)
                    +:+ " positional arguments but " +:+ pretty (length args)
                    +:+ " were given"))
      else
        match mapM (fun p => snd <$> List.find (fun kv => bool_decide (kv.1 = p)) kw)
                   (drop (length args) params) with
        | Some rest => mret (args ++ rest)
        | None => raise (TypeError (name +:+ "() missing required positional arguments"))
        end
  end.

(** *** Ghost instrumentation

    [probe func] behaves as [func] and notes each of its invocations in
    the ghost field [ticks], which nothing of the program reads. *)
Definition probe (func : pyfun) : pyfun :=
  wraps func (def "probe" None (fun args kwargs =>
    modify (set_ticks S);;
    call func args kwargs)).

End Decorators.
Arguments pyfun V : clear implicits.
Arguments kwargs V : clear implicits.

(** ** Python integers as argument values

    [hash] of a tuple of integers as CPython computes it on a 64-bit build
    (the xxHash-style mixing of the items' hashes), and [str] as the decimal
    numeral. *)
Module CPython.
Definition u64 (x : Z) : Z := x mod 2 ^ 64.
Definition signed64 (x : Z) : Z := if decide (x < 2 ^ 63) then x else x - 2 ^ 64.

Definition int_hash (n : Z) : Z :=
  let h := Z.sgn n * (Z.abs n mod (2 ^ 61 - 1)) in
  if decide (h = -1) then -2 else h.

Definition XXPRIME_1 : Z := 11400714785074694791.
Definition XXPRIME_2 : Z := 14029467366897019727.
Definition XXPRIME_5 : Z := 2870177450012600261.
Definition XXROTATE (x : Z) : Z := Z.lor (u64 (Z.shiftl x 31)) (Z.shiftr x 33).

Fixpoint lanes (acc : Z) (items : list Z) : Z :=
  match items with
  | [] => acc
  | item :: items =>
      let acc := u64 (acc + u64 (int_hash item) * XXPRIME_2) in
      let acc := XXROTATE acc in
      lanes (u64 (acc * XXPRIME_1)) items
  end.

Definition tuplehash (items : list Z) : Z :=
  let acc := lanes XXPRIME_5 items in
  let acc := u64 (acc + Z.lxor (Z.of_nat (length items)) (Z.lxor XXPRIME_5 3527539)) in
  if decide (acc = 2 ^ 64 - 1) then 1546275796 else signed64 acc.
End CPython.

#[global] Instance int_value : PyValue Z := {|
  hash args := Some (CPython.tuplehash args);
  str := pretty;
|}.

(** ** The decorated functions of the module *)

Definition foo_def : pyfun Z :=
  def "foo" None (fun args kw =>
    params ← bind_params "foo" ["a"; "b"] args kw;
    match params with
    | [a; b] => mret (a + b)
    | _ => raise (TypeError "foo()")
    end).

Definition foo : pyfun Z := countcalls (memo (n_ary foo_def)).

Definition bar_def : pyfun Z :=
  def "bar" None (fun args kw =>
    params ← bind_params "bar" ["a"; "b"] args kw;
    match params with
    | [a; b] => mret (a * b)
    | _ => raise (TypeError "bar()")
    end).

Definition bar : pyfun Z := countcalls (memo (n_ary bar_def)).

(** The body of [fib] looks its own name up in the module: [fib] is what
    that name is bound to when the body runs. *)
Definition fib_def (fib : pyfun Z) : pyfun Z :=
  def "fib" (Some "Some doc") (fun args kw =>
    params ← bind_params "fib" ["n"] args kw;
    match params with
    | [n] =>
        if decide (n <= 1) then mret 1
        else
          x ← call fib [n - 1] [];
          y ← call fib [n - 2] [];
          mret (x + y)
    | _ => raise (TypeError "fib()")
    end).

(** The name [fib] is bound to the decorated function, so the recursion
    passes through every wrapper.  [limit] bounds how deep calls through the
    name may nest; beyond it the call fails as the interpreter's recursion
    limit makes it fail.  [bound] is applied to the decorated function
    before it is stored under the name: the identity in the program. *)
Fixpoint fib_with (bound : pyfun Z -> pyfun Z) (limit : nat) : pyfun Z :=
  match limit with
  | O => def "fib" (Some "Some doc") (fun _ _ => raise RecursionError)
  | S limit =>
      bound (countcalls (trace "####" (memo (fib_def (fib_with bound limit)))))
  end.

Definition fib : nat -> pyfun Z := fib_with (fun decorated => decorated).

(** [main], one part for each function it exercises, each part on the
    attributes of that function's wrappers. *)
Definition main_foo : Py Z unit :=
  r ← call foo [4; 3] []; print [str r];;
  r ← call foo [4; 3; 2] []; print [str r];;
  r ← call foo [4; 3] []; print [str r];;
  n ← gets calls; print ["foo was called"; str n; "times"].

Definition main_bar : Py Z unit :=
  r ← call bar [4; 3] []; print [str r];;
  r ← call bar [4; 3; 2] []; print [str r];;
  r ← call bar [4; 3; 2; 1] []; print [str r];;
  n ← gets calls; print ["bar was called"; str n; "times"].

Definition main_fib (limit : nat) : Py Z unit :=
  print ["__doc__="; default "None" (__doc__ (fib limit))];;
  call (fib limit) [3] [];;
  n ← gets calls; print [str n; "calls made"].

Definition main (limit : nat) : list string :=
  stdout (main_foo fresh).2 ++ stdout (main_bar fresh).2
    ++ stdout (main_fib limit fresh).2.

(** Calling [f] on each argument tuple in turn; after each call the result,
    [f.calls] and [len(f.cache)] are noted. *)
Definition observe {V} (f : pyfun V) (args : list V) : Py V (V * Z * nat) :=
  result ← call f args [];
  n ← gets calls;
  k ← gets (fun s => size (cache s));
  mret (result, n, k).

Definition session {V} (f : pyfun V) (argss : list (list V))
    : Py V (list (V * Z * nat)) :=
  mapM (observe f) argss.


(** * Vocabulary of the statements *)

Section Vocabulary.
Context {V : Type} `{!PyValue V}.
Implicit Types (func f : pyfun V) (args : list V) (kw : kwargs V) (s : store V).

(** The lines the tracer writes around a call with the single argument [a]. *)
Definition entering (indent : string) func (a : V) (d : Z) : string :=
  str_mul indent d +:+ " --> " +:+ __name__ func +:+ "(" +:+ str a +:+ ")".
Definition leaving (indent : string) func (a result : V) (d : Z) : string :=
  str_mul indent d +:+ " <-- " +:+ (__name__ func +:+ "(" +:+ str a +:+ ") == ")
    +:+ " " +:+ str result.

Definition enter (indent : string) func (a : V) s : store V :=
  set_depth (fun d => d + 1)
    (set_stdout (fun out => out ++ [entering indent func a (depth s)]) s).
Definition leave (indent : string) func (a result : V) s : store V :=
  set_stdout (fun out => out ++ [leaving indent func a result (depth s - 1)])
    (set_depth (fun d => d - 1) s).

(** [x1; ...; xn] folded from the right by a pure binary operation, the
    last item being the seed: what the specification calls the right
    fold of [f] over the argument list. *)
Definition right_fold (g : V -> V -> V) (xs : list V) (z : V) : V :=
  foldr g z xs.

(** A function leaves the cache's entries in place: whatever it does, and
    however it ends, every entry present before is present after with the
    same value. *)
Definition keeps_cache f : Prop :=
  ∀ args kw s o s', call f args kw s = (o, s') -> cache s ⊆ cache s'.

(** The calls [(args, kwargs)] made one after the other, an error ending
    the run. *)
Definition call_each f (requests : list (list V * kwargs V)) : Py V (list V) :=
  mapM (fun request => call f request.1 request.2) requests.

(** [f] and [g] do the same but for the ghost field: they carry one name
    and one docstring, and a call of [g] from a state without its ghost
    content ends as the call of [f] from the whole state does, ghost
    content dropped. *)
Definition forget s : store V := set_ticks (fun _ => 0%nat) s.

Definition same_but_ticks f g : Prop :=
  __name__ g = __name__ f ∧ __doc__ g = __doc__ f ∧
  ∀ args kw s,
    call g args kw (forget s) =
      ((call f args kw s).1, forget (call f args kw s).2).

End Vocabulary.

(** What binding the name does to a call, seen from the ghost field. *)
Definition ghost_hook (bound : pyfun Z -> pyfun Z) (g : nat -> nat) : Prop :=
  ∀ f args kw s, call (bound f) args kw s = call f args kw (set_ticks g s).

(** A function that raises whatever it is given. *)
Definition boom : pyfun Z := def "boom" None (fun _ _ => raise (Exception "boom")).

(** Python lists of integers as argument values: a list is unhashable, and
    with it every tuple that holds one. *)
#[global] Instance list_value : PyValue (list Z) := {|
  hash args :=
    match args with
    | [] => Some (CPython.tuplehash [])
    | _ :: _ => None
    end;
  str items := "[" +:+ String.concat ", " (pretty <$> items) +:+ "]";
|}.

(** [def pick(x, k): return k]. *)
Definition pick : pyfun Z :=
  def "pick" None (fun args kw =>
    params ← bind_params "pick" ["x"; "k"] args kw;
    match params with
    | [x; k] => mret k
    | _ => raise (TypeError "pick()")
    end).

(** A function that returns [v] whatever it is given. *)
Definition constant {V} (v : V) : pyfun V := def "constant" None (fun _ _ => mret v).

(** * Vocabulary of the further properties *)

Section Frames.
Context {V : Type} `{!PyValue V}.
Implicit Types (func f : pyfun V) (args : list V) (kw : kwargs V) (s : store V).

(** What a function may be known not to touch: the counter, the cache. *)
Definition leaves_calls f : Prop :=
  ∀ args kw s o s', call f args kw s = (o, s') -> calls s' = calls s.

Definition leaves_cache f : Prop :=
  ∀ args kw s o s', call f args kw s = (o, s') -> cache s' = cache s.

(** A function that makes no probed call: none of itself, through a wrapper
    or otherwise.  Whatever else it does, the ghost count is as before. *)
Definition leaves_ticks f : Prop :=
  ∀ args kw s o s', call f args kw s = (o, s') -> ticks s' = ticks s.

(** A function that returns leaves the depth where it was and has only
    added to what is printed. *)
Definition nests_well f : Prop :=
  ∀ args kw s v s', call f args kw s = (Returns v, s') ->
    depth s' = depth s ∧ ∃ printed, stdout s' = stdout s ++ printed.

(** [f] computes [spec] on the argument tuples of [D], called without
    keyword arguments: whatever the state, it returns [spec] of them and
    leaves the state alone. *)
Definition computes (D : list V -> Prop) (spec : list V -> V) f : Prop :=
  ∀ args s, D args -> call f args [] s = (Returns (spec args), s).

(** The calls on the argument tuples [argss], without keyword arguments. *)
Definition positional (argss : list (list V)) : list (list V * kwargs V) :=
  (fun args => (args, [])) <$> argss.

(** No two argument tuples of [D] share a hash, and all have one. *)
Definition collision_free (D : list V -> Prop) : Prop :=
  (∀ a, D a -> is_Some (hash a)) ∧
  (∀ a b h, D a -> D b -> hash a = Some h -> hash b = Some h -> a = b).

(** What the cache holds under the key of a tuple of [D] is [spec] of it. *)
Definition cache_sound (D : list V -> Prop) (spec : list V -> V)
    (c : gmap Z V) : Prop :=
  ∀ a h v, D a -> hash a = Some h -> c !! h = Some v -> v = spec a.
End Frames.

(** [def identity(x): return x]. *)
Definition identity : pyfun Z :=
  def "identity" None (fun args kw =>
    params ← bind_params "identity" ["x"] args kw;
    match params with
    | [x] => mret x
    | _ => raise (TypeError "identity()")
    end).

(** A function with an effect: it prints a line and returns 7, whatever its
    arguments. *)
Definition chatty : pyfun Z :=
  def "chatty" None (fun _ _ => print ["chatty"];; mret 7).

(** A function that calls [boom] under the tracer it is itself traced with
    (one [real_decorator], so one depth), swallows its error as
    [try: ... except Exception: pass] does, and returns 1. *)
Definition forgiving : pyfun Z :=
  def "forgiving" None (fun args kw s =>
    match call (trace "####" boom) args kw s with
    | (Returns _, s') => (Returns 1, s')
    | (Raises _, s') => (Returns 1, s')
    end).

(** [fib] with every invocation of its body noted in the ghost field. *)
Fixpoint fib_counting_body (limit : nat) : pyfun Z :=
  match limit with
  | O => def "fib" (Some "Some doc") (fun _ _ => raise RecursionError)
  | S limit =>
      countcalls (trace "####"
        (memo (probe (fib_def (fib_counting_body limit)))))
  end.

(** The numbers [fib] is written to compute: 1 up to 1, and from 2 on the
    sum of the two before. *)
Fixpoint fib_pair (k : nat) : Z * Z :=
  match k with
  | O => (1, 1)
  | S k => let '(a, b) := fib_pair k in (b, a + b)
  end.

Definition fib_value (n : Z) : Z := (fib_pair (Z.to_nat n)).1.

(** The cache of [fib] holds the right number under the key of every
    argument from 0 to [N]. *)
Definition fib_cache_sound (N : Z) (c : gmap Z Z) : Prop :=
  ∀ k v, 0 <= k <= N -> c !! CPython.tuplehash [k] = Some v -> v = fib_value k.

(** The keys of the arguments from 0 to [N] are all different. *)
Definition fib_keys_distinct (N : Z) : Prop :=
  ∀ i j, 0 <= i <= N -> 0 <= j <= N ->
    CPython.tuplehash [i] = CPython.tuplehash [j] -> i = j.

(** * How a call of each wrapper unfolds *)

Ltac py_unfold :=
  unfold mbind, mret, Py_bind, Py_ret, py_bind, py_ret, raise, gets, modify in *.

Section Calls.
Context {V : Type} `{!PyValue V}.
Implicit Types (func : pyfun V) (args : list V) (kw : kwargs V) (s : store V).

Lemma countcalls_call func args kw s :
  call (countcalls func) args kw s =
    match call func args kw s with
    | (Returns v, s') => (Returns v, set_calls (fun c => c + 1) s')
    | (Raises e, s') => (Raises e, s')
    end.
Proof.
  unfold countcalls; simpl; py_unfold.
  destruct (call func args kw s) as [[v|e] s']; reflexivity.
Qed.

Lemma memo_call func args kw s :
  call (memo func) args kw s =
    match hash args with
    | None => (Raises (TypeError "unhashable type"), s)
    | Some h =>
        match cache s !! h with
        | Some v => (Returns v, s)
        | None =>
            match call func args kw s with
            | (Returns v, s') => (Returns v, set_cache (fun c => <[h := v]> c) s')
            | (Raises e, s') => (Raises e, s')
            end
        end
    end.
Proof.
  unfold memo, hash_args, cache_getitem, cache_setitem; simpl; py_unfold.
  destruct (hash args) as [h|]; [|reflexivity].
  destruct (decide (h ∉ dom (cache s))) as [Hmiss|Hhit].
  - apply not_elem_of_dom in Hmiss. rewrite Hmiss.
    destruct (call func args kw s) as [[v|e] s']; [|reflexivity].
    simpl. by rewrite lookup_insert_eq.
  - apply dec_stable in Hhit. apply elem_of_dom in Hhit as [v Hv].
    by rewrite Hv.
Qed.

Lemma probe_call func args kw s :
  call (probe func) args kw s = call func args kw (set_ticks S s).
Proof. reflexivity. Qed.

Lemma trace_call indent func a kw s :
  call (trace indent func) [a] kw s =
    match call func [a] kw (enter indent func a s) with
    | (Returns v, s') => (Returns v, leave indent func a v s')
    | (Raises e, s') => (Raises e, s')
    end.
Proof.
  destruct (call func [a] kw (enter indent func a s)) as [[v|e] s'] eqn:E;
    unfold trace, format_call, print; simpl; py_unfold; simpl;
    match goal with
    | |- context [call func [a] kw ?x] => change x with (enter indent func a s)
    end; rewrite E; reflexivity.
Qed.
End Calls.

(** * The n-ary folder *)

Section NAry.
Context {V : Type} `{!PyValue V}.
Implicit Types (f : pyfun V) (s : store V).

Lemma n_ary_func_cons f x y l s :
  n_ary_func f (x :: y :: l) s =
    (r ← n_ary_func f (y :: l); call f [x; r] []) s.
Proof. reflexivity. Qed.

Lemma n_ary_func_snoc f xs z s :
  n_ary_func f (xs ++ [z]) s =
    foldr (fun x rest => r ← rest; call f [x; r] []) (mret z) xs s.
Proof.
  revert s. induction xs as [|x xs IH]; intros s; [reflexivity|].
  simpl foldr. destruct xs as [|y xs].
  - reflexivity.
  - change ((x :: y :: xs) ++ [z]) with (x :: y :: (xs ++ [z])).
    rewrite n_ary_func_cons. py_unfold.
    change (y :: xs ++ [z]) with ((y :: xs) ++ [z]). by rewrite IH.
Qed.

(** C1: [n_ary(f)] called with one argument returns it, with two it is
    [f] on them, and with more it is [f] on the first and on the result
    for the remaining ones; its result on a non-empty argument list is
    the right fold of [f] over that list, for an [f] with effects and for
    one that computes a pure binary operation [g]. *)
Theorem n_ary_right_fold f :
  (∀ x s, call (n_ary f) [x] [] s = (Returns x, s)) ∧
  (∀ x y s, call (n_ary f) [x; y] [] s = call f [x; y] [] s) ∧
  (∀ x1 x2 xs s,
      call (n_ary f) (x1 :: x2 :: xs) [] s =
        (r ← call (n_ary f) (x2 :: xs) []; call f [x1; r] []) s) ∧
  (∀ xs z s,
      call (n_ary f) (xs ++ [z]) [] s =
        foldr (fun x rest => r ← rest; call f [x; r] []) (mret z) xs s) ∧
  (∀ g : V -> V -> V,
      (∀ x y s, call f [x; y] [] s = (Returns (g x y), s)) ->
      ∀ xs z s,
        call (n_ary f) (xs ++ [z]) [] s = (Returns (right_fold g xs z), s)).
Proof.
  repeat split.
  - intros. simpl. apply n_ary_func_snoc.
  - intros g Hg xs z s. simpl. rewrite n_ary_func_snoc.
    revert s. induction xs as [|x xs IH]; intros s; [reflexivity|].
    simpl. py_unfold. rewrite IH. apply Hg.
Qed.
End NAry.

(** A run on the module's own addition: [foo(4, 3, 2)] without the cache
    and the counter. *)
Lemma n_ary_right_fold_witness :
  (∀ x y s, call foo_def [x; y] [] s = (Returns (x + y), s)) ∧
  call (n_ary foo_def) ([4; 3] ++ [2]) [] fresh = (Returns 9, fresh).
Proof.
  assert (H : ∀ x y s, call foo_def [x; y] [] s = (Returns (x + y), s))
    by reflexivity.
  split; [exact H|].
  exact (proj2 (proj2 (proj2 (proj2 (n_ary_right_fold foo_def))))
           Z.add H [4; 3] 2 fresh).
Defined.

(** * The memoizer *)

Section Memo.
Context {V : Type} `{!PyValue V}.
Implicit Types (func f : pyfun V) (args : list V) (kw : kwargs V) (s : store V).

Lemma memo_hit func args kw s h v :
  hash args = Some h -> cache s !! h = Some v ->
  call (memo func) args kw s = (Returns v, s).
Proof. intros Hh Hv. by rewrite memo_call, Hh, Hv. Qed.

(** After a call that returned, the key of its arguments holds the
    returned value. *)
Lemma memo_returns_cached func args kw s v s' :
  call (memo func) args kw s = (Returns v, s') ->
  ∃ h, hash args = Some h ∧ cache s' !! h = Some v.
Proof.
  rewrite memo_call. destruct (hash args) as [h|]; [|done].
  destruct (cache s !! h) as [w|] eqn:Hc.
  - intros [= -> ->]. eauto.
  - destruct (call func args kw s) as [[w|e] s1]; [|done].
    intros [= -> <-]. exists h. split; [done|]. apply lookup_insert_eq.
Qed.

(** C9, as the code has it: the key is [hash(args)] alone.  A call that
    has returned leaves its result stored under the hash of its positional
    arguments, and the next call with positional arguments of that hash,
    whatever its keyword arguments, returns that result; the wrapped function
    is not invoked and nothing changes.  A call the hash of whose positional
    arguments is not in the cache invokes the wrapped function with the
    call's own keyword arguments, and stores the result under that hash if
    the function returns, and nothing if it raises. *)
Theorem memo_ignores_kwargs func :
  (∀ args kw s v s1,
     call (memo (probe func)) args kw s = (Returns v, s1) ->
     ∃ h, hash args = Some h ∧ cache s1 !! h = Some v ∧
          ∀ args' kw', hash args' = Some h ->
            call (memo (probe func)) args' kw' s1 = (Returns v, s1)) ∧
  (∀ args kw s h,
     hash args = Some h -> cache s !! h = None ->
     call (memo (probe func)) args kw s =
       match call func args kw (set_ticks S s) with
       | (Returns v, s') => (Returns v, set_cache (fun c => <[h := v]> c) s')
       | (Raises e, s') => (Raises e, s')
       end).
Proof.
  split.
  - intros args kw s v s1 H1.
    apply memo_returns_cached in H1 as (h & Hh & Hv).
    exists h. split; [done|]. split; [done|].
    intros args' kw' Hh'. by apply memo_hit with h.
  - intros args kw s h Hh Hc. by rewrite memo_call, Hh, Hc, probe_call.
Qed.

(** C2, as the code has it: once a call of the memoized wrapper has
    returned, the next call with the same positional arguments returns the
    same result from the cache and changes nothing, so the wrapped function
    is not invoked again; and a function that makes no call of itself has
    been invoked at most once.  On hashable arguments on which the function
    returns, whatever the state and whatever else it does, the first call
    does return. *)
Theorem memo_twice func args kw :
  (∀ s r s1,
     call (memo (probe func)) args kw s = (Returns r, s1) ->
     (∀ kw', call (memo (probe func)) args kw' s1 = (Returns r, s1)) ∧
     (leaves_ticks func -> (ticks s1 <= ticks s + 1)%nat)) ∧
  (∀ h, hash args = Some h -> leaves_ticks func ->
     (∀ s0, ∃ v s0', call func args kw s0 = (Returns v, s0')) ->
     ∀ s, ∃ r s1,
       call (memo (probe func)) args kw s = (Returns r, s1) ∧
       call (memo (probe func)) args kw s1 = (Returns r, s1) ∧
       (ticks s1 <= ticks s + 1)%nat).
Proof.
  assert (Hgen : ∀ s r s1,
     call (memo (probe func)) args kw s = (Returns r, s1) ->
     (∀ kw', call (memo (probe func)) args kw' s1 = (Returns r, s1)) ∧
     (leaves_ticks func -> (ticks s1 <= ticks s + 1)%nat)).
  { intros s r s1 E. split.
    - intros kw'. apply memo_returns_cached in E as (h & Hh & Hv).
      by apply memo_hit with h.
    - intros Hf. rewrite memo_call in E. destruct (hash args) as [h|]; [|done].
      destruct (cache s !! h) as [w|]; [injection E as _ <-; lia|].
      rewrite probe_call in E.
      destruct (call func args kw (set_ticks S s)) as [[w|e] s'] eqn:Ef; [|done].
      apply Hf in Ef. injection E as _ <-. simpl in *. lia. }
  split; [exact Hgen|].
  intros h Hh Hf Hret s.
  destruct (call (memo (probe func)) args kw s) as [o s1] eqn:E.
  assert (∃ r, o = Returns r) as [r ->].
  { rewrite memo_call, Hh in E. destruct (cache s !! h) as [w|].
    - injection E as <- _. eauto.
    - rewrite probe_call in E.
      destruct (Hret (set_ticks S s)) as (v & s0' & Ev). rewrite Ev in E.
      injection E as <- _. eauto. }
  exists r, s1. destruct (Hgen s r s1 E) as [H2 Ht]. auto.
Qed.

Lemma memo_keeps_cache func : keeps_cache func -> keeps_cache (memo func).
Proof.
  intros Hf args kw s o s'. rewrite memo_call.
  destruct (hash args) as [h|]; [|by intros [= _ <-]].
  destruct (cache s !! h) as [w|] eqn:Hc; [by intros [= _ <-]|].
  destruct (call func args kw s) as [[w|e] s1] eqn:E; intros [= _ <-].
  - simpl. apply insert_subseteq_r; [done|]. by eapply Hf.
  - by eapply Hf.
Qed.

Lemma call_each_keeps_cache f requests s o s' :
  keeps_cache f -> call_each f requests s = (o, s') -> cache s ⊆ cache s'.
Proof.
  intros Hf. unfold call_each. revert s o s'.
  induction requests as [|[args kw] requests IH]; intros s o s'; simpl.
  - by intros [= _ <-].
  - py_unfold. destruct (call f args kw s) as [[v|e] s1] eqn:E; simpl.
    + match goal with
      | |- context [let (_, _) := ?m in _] => destruct m as [[vs|e] s2] eqn:E2
      end; intros [= _ <-]; (etrans; [by eapply Hf | by eapply IH]).
    + intros [= _ <-]. by eapply Hf.
Qed.

(** C6: a call whose key is in the cache returns the stored value and
    changes nothing, no entry of the cache and nothing else; and where the
    wrapped function leaves the cache's entries in place, so does every call
    of the wrapper, and every run of calls: an entry, once there, stays with
    its value. *)
Theorem memo_never_evicts func :
  (∀ args kw s h v,
      hash args = Some h -> cache s !! h = Some v ->
      call (memo func) args kw s = (Returns v, s)) ∧
  (keeps_cache func ->
   (∀ args kw s o s' k v,
       call (memo func) args kw s = (o, s') ->
       cache s !! k = Some v -> cache s' !! k = Some v) ∧
   (∀ requests s o s' k v,
       call_each (memo func) requests s = (o, s') ->
       cache s !! k = Some v -> cache s' !! k = Some v)).
Proof.
  split; [|intros Hf; split].
  - intros. by eapply memo_hit.
  - intros args kw s o s' k v E Hk.
    eapply lookup_weaken; [exact Hk|]. by eapply memo_keeps_cache.
  - intros requests s o s' k v E Hk.
    eapply lookup_weaken; [exact Hk|].
    eapply call_each_keeps_cache; [|exact E]. by apply memo_keeps_cache.
Qed.
End Memo.

(** * The recursion of [fib] through its wrappers *)

Lemma hash_int (args : list Z) : hash args = Some (CPython.tuplehash args).
Proof. reflexivity. Qed.

Lemma fib_def_call (F : pyfun Z) (n : Z) (s : store Z) :
  call (fib_def F) [n] [] s =
    if decide (n <= 1) then (Returns 1, s)
    else
      match call F [n - 1] [] s with
      | (Returns x, s1) =>
          match call F [n - 2] [] s1 with
          | (Returns y, s2) => (Returns (x + y), s2)
          | (Raises e, s2) => (Raises e, s2)
          end
      | (Raises e, s1) => (Raises e, s1)
      end.
Proof.
  unfold fib_def, def; simpl. py_unfold. simpl.
  destruct (decide (n <= 1)); [reflexivity|].
  destruct (call F [n - 1] [] s) as [[x|e] s1]; [|reflexivity].
  destruct (call F [n - 2] [] s1) as [[y|e] s2]; reflexivity.
Qed.

Lemma ghost_hook_plain : ghost_hook (fun decorated => decorated) (fun t => t).
Proof. intros f args kw [c m d o t]. reflexivity. Qed.

Lemma ghost_hook_probe : ghost_hook probe S.
Proof. intros f args kw s. reflexivity. Qed.

(** With enough room for the nesting, a call of [fib] on an integer returns;
    the depth is back where it was, the entries of the cache are still
    there, and the counter has advanced once for each entry through the
    name, of which there is at least one. *)
Lemma fib_with_returns bound g :
  ghost_hook bound g ->
  ∀ limit n s, (Z.to_nat n < limit)%nat ->
    ∃ v s' (k : nat),
      call (fib_with bound limit) [n] [] s = (Returns v, s') ∧
      depth s' = depth s ∧
      cache s ⊆ cache s' ∧
      calls s' = calls s + Z.of_nat k ∧
      ticks s' = Nat.iter k g (ticks s) ∧
      (0 < k)%nat.
Proof.
  intros Hb. induction limit as [|limit IH]; intros n s Hn; [lia|].
  simpl fib_with. rewrite Hb, countcalls_call, trace_call, memo_call, hash_int.
  set (F := fib_with bound limit) in *.
  set (s0 := enter "####" (memo (fib_def F)) n (set_ticks g s)).
  assert (Hs0 : depth s0 = depth s + 1 ∧ cache s0 = cache s ∧
                calls s0 = calls s ∧ ticks s0 = g (ticks s)) by done.
  destruct Hs0 as (Hd0 & Hc0 & Hn0 & Ht0). clearbody s0.
  destruct (cache s0 !! CPython.tuplehash [n]) as [w|] eqn:Hhit.
  { eexists _, _, 1%nat. split; [reflexivity|]. simpl.
    rewrite Hd0, Hc0, Hn0, Ht0. repeat split; try done; lia. }
  rewrite fib_def_call. destruct (decide (n <= 1)) as [Hle|Hgt].
  { eexists _, _, 1%nat. split; [reflexivity|]. simpl.
    rewrite Hd0, Hn0, Ht0. repeat split; try done; try lia.
    rewrite <- Hc0. by apply insert_subseteq. }
  destruct (IH (n - 1) s0) as (x & s1 & k1 & E1 & Hd1 & Hc1 & Hn1 & Ht1 & Hk1);
    [lia|].
  destruct (IH (n - 2) s1) as (y & s2 & k2 & E2 & Hd2 & Hc2 & Hn2 & Ht2 & Hk2);
    [lia|].
  rewrite E1, E2.
  eexists _, _, (S (k2 + k1)). split; [reflexivity|]. simpl.
  repeat split; try lia.
  - apply insert_subseteq_r; [by rewrite <- Hc0|].
    rewrite <- Hc0. by etrans.
  - rewrite Ht2, Ht1, Ht0, <- Nat.iter_add, <- Nat.iter_succ_r. done.
Qed.

(** * The ghost field is only watched *)

Section Erasure.
Context {V : Type} `{!PyValue V}.
Implicit Types (func f g : pyfun V) (args : list V) (kw : kwargs V) (s : store V).

Lemma same_but_ticks_probe f g : same_but_ticks f g -> same_but_ticks (probe f) g.
Proof.
  intros (Hn & Hd & H). repeat split; [done..|].
  intros args kw s. rewrite probe_call, <- H. reflexivity.
Qed.

Lemma same_but_ticks_countcalls f g :
  same_but_ticks f g -> same_but_ticks (countcalls f) (countcalls g).
Proof.
  intros (Hn & Hd & H). repeat split; [done..|].
  intros args kw s. rewrite !countcalls_call, H.
  by destruct (call f args kw s) as [[v|e] s'].
Qed.

Lemma same_but_ticks_memo f g :
  same_but_ticks f g -> same_but_ticks (memo f) (memo g).
Proof.
  intros (Hn & Hd & H). repeat split; [done..|].
  intros args kw s. rewrite !memo_call.
  destruct (hash args) as [h|]; [|done].
  change (cache (forget s)) with (cache s).
  destruct (cache s !! h); [done|]. rewrite H.
  by destruct (call f args kw s) as [[v|e] s'].
Qed.

Lemma same_but_ticks_trace indent f g :
  same_but_ticks f g -> same_but_ticks (trace indent f) (trace indent g).
Proof.
  intros (Hn & Hd & H). repeat split; [done..|].
  intros [|a [|b args]] kw s; [done| |done].
  rewrite !trace_call.
  replace (enter indent g a (forget s)) with (forget (enter indent f a s))
    by (unfold enter, entering; by rewrite Hn).
  rewrite H. destruct (call f [a] kw _) as [[v|e] s']; [|done].
  simpl. unfold leave, leaving. by rewrite Hn.
Qed.
End Erasure.

Lemma bind_params_pure {V : Type} `{!PyValue V} name params (args : list V) kw :
  ∃ o, ∀ s : store V, bind_params name params args kw s = (o, s).
Proof.
  unfold bind_params.
  destruct (List.find _ kw) as [[k ?]|].
  - destruct (decide _); by eexists.
  - destruct (decide _); [by eexists|]. destruct (mapM _ _); by eexists.
Qed.

Lemma same_but_ticks_fib_def (F G : pyfun Z) :
  same_but_ticks F G -> same_but_ticks (fib_def F) (fib_def G).
Proof.
  intros (Hn & Hd & H). repeat split. intros args kw s.
  unfold fib_def, def; simpl. py_unfold.
  destruct (bind_params_pure "fib" ["n"] args kw) as [o Ho]. rewrite !Ho.
  destruct o as [[|n [|m params]]|e]; try done.
  destruct (decide (n <= 1)); [done|]. rewrite H.
  destruct (call F [n - 1] [] s) as [[x|e] s1]; [|done]. simpl. rewrite H.
  by destruct (call F [n - 2] [] s1) as [[y|e] s2].
Qed.

(** The counted [fib] is the program's [fib]: same outcomes, same
    attributes, the ghost field apart. *)
Lemma fib_probe_erasure limit : same_but_ticks (fib_with probe limit) (fib limit).
Proof.
  induction limit as [|limit IH]; [done|].
  apply same_but_ticks_probe, same_but_ticks_countcalls, same_but_ticks_trace,
    same_but_ticks_memo, same_but_ticks_fib_def, IH.
Qed.

(** * The call counter *)

Section CountCalls.
Context {V : Type} `{!PyValue V}.
Implicit Types (func : pyfun V) (args : list V) (kw : kwargs V) (s : store V).

(** C10: when the wrapped function raises, the wrapper raises the same
    error from the state the function left: it adds no increment, so the
    counter is what the function left, and where the function itself has
    not touched it, what it was before the call. *)
Theorem countcalls_raise func args kw s e s' :
  call func args kw s = (Raises e, s') ->
  call (countcalls func) args kw s = (Raises e, s') ∧
  (calls s' = calls s ->
   calls (call (countcalls func) args kw s).2 = calls s).
Proof.
  intros E. rewrite countcalls_call, E. split; [reflexivity|]. simpl. done.
Qed.

Lemma countcalls_return func args kw s v s' :
  call func args kw s = (Returns v, s') ->
  call (countcalls func) args kw s = (Returns v, set_calls (fun c => c + 1) s').
Proof. intros E. by rewrite countcalls_call, E. Qed.
End CountCalls.

Lemma countcalls_raise_witness :
  call boom [1] [] fresh = (Raises (Exception "boom"), fresh) ∧
  call (countcalls boom) [1] [] fresh = (Raises (Exception "boom"), fresh) ∧
  calls (call (countcalls boom) [1] [] fresh).2 = 0.
Proof.
  assert (E : call boom [1] [] fresh = (Raises (Exception "boom"), fresh))
    by reflexivity.
  destruct (countcalls_raise boom [1] [] fresh _ _ E) as [H1 H2].
  split; [exact E|]. split; [exact H1|]. exact (H2 eq_refl).
Defined.

(** C4, as the code has it: an invocation of the wrapper that returns has
    advanced the counter by exactly one on top of what the wrapped function
    did; and through the recursion of [fib], whose every self-call enters
    the wrapper again by the name, a call that returns has advanced the
    counter by the number of entries through the name, the counted [fib]
    being the program's [fib] with the ghost field beside it. *)
Theorem countcalls_one_per_return :
  (∀ V (HV : PyValue V) (func : pyfun V) args kw s v s',
      call func args kw (set_ticks S s) = (Returns v, s') ->
      call (probe (countcalls func)) args kw s =
        (Returns v, set_calls (fun c => c + 1) s')) ∧
  (∀ limit n s, (Z.to_nat n < limit)%nat ->
      ∃ v s',
        call (fib_with probe limit) [n] [] s = (Returns v, s') ∧
        calls s' - calls s = Z.of_nat (ticks s') - Z.of_nat (ticks s) ∧
        (ticks s < ticks s')%nat) ∧
  (∀ limit, same_but_ticks (fib_with probe limit) (fib limit)).
Proof.
  split; [|split].
  - intros V HV func args kw s v s' E.
    rewrite probe_call. by apply countcalls_return.
  - intros limit n s Hn.
    destruct (fib_with_returns probe S ghost_hook_probe limit n s Hn)
      as (v & s' & k & E & _ & _ & Hc & Ht & Hk).
    exists v, s'. split; [exact E|].
    assert (Hiter : ∀ j t, Nat.iter j S t = (j + t)%nat).
    { induction j as [|j IHj]; intros t; simpl; [done|]. by rewrite IHj. }
    rewrite Hiter in Ht. lia.
  - apply fib_probe_erasure.
Qed.

Lemma countcalls_one_per_return_witness :
  call (probe (countcalls foo_def)) [4; 3] [] fresh =
    (Returns 7, set_calls (fun c => c + 1) (set_ticks S fresh)) ∧
  ∃ v (s' : store Z),
    call (fib_with probe 4) [3] [] fresh = (Returns v, s') ∧
    calls s' - 0 = Z.of_nat (ticks s') - Z.of_nat 0 ∧
    (0 < ticks s')%nat.
Proof.
  split.
  - exact (proj1 countcalls_one_per_return Z _ foo_def [4; 3] [] fresh 7
             (set_ticks S fresh) eq_refl).
  - apply (proj1 (proj2 countcalls_one_per_return) 4%nat 3 fresh). vm_compute. lia.
Defined.

(** C4 as stated does not hold: one invocation of the wrapper, and the
    counter has not moved, because the wrapped function raised. *)
Lemma countcalls_misses_failed_call :
  ticks (call (probe (countcalls boom)) [1] [] fresh).2 = 1%nat ∧
  calls (call (probe (countcalls boom)) [1] [] fresh).2 = 0 ∧
  ¬ (calls (call (probe (countcalls boom)) [1] [] fresh).2 = 0 + 1).
Proof. split; [reflexivity|]. split; [reflexivity|]. discriminate. Qed.

(** * The tracer *)

Section Trace.
Context {V : Type} `{!PyValue V}.
Implicit Types (func : pyfun V) (args : list V) (kw : kwargs V) (s : store V).

Lemma length_append (a b : string) :
  String.length (a +:+ b) = (String.length a + String.length b)%nat.
Proof.
  induction a as [|c a IH]; [done|].
  change (S (String.length (a +:+ b)) = S (String.length a + String.length b)).
  by rewrite IH.
Qed.

Lemma str_mul_length (indent : string) (d : Z) :
  String.length (str_mul indent d) = (Z.to_nat d * String.length indent)%nat.
Proof.
  unfold str_mul. induction (Z.to_nat d) as [|[|n] IH]; [done|simpl; lia|].
  change (replicate (S (S n)) indent) with (indent :: replicate (S n) indent).
  change (String.concat "" (indent :: replicate (S n) indent))
    with (indent +:+ "" +:+ String.concat "" (replicate (S n) indent)).
  rewrite !length_append, IH. simpl. lia.
Qed.

Lemma trace_returns_inv indent func args kw s v s' :
  call (trace indent func) args kw s = (Returns v, s') ->
  ∃ a s1, args = [a] ∧
          call func [a] kw (enter indent func a s) = (Returns v, s1) ∧
          s' = leave indent func a v s1.
Proof.
  destruct args as [|a [|b args]]; [done| |done].
  rewrite trace_call.
  destruct (call func [a] kw _) as [[w|e] s1] eqn:E; [|done].
  intros [= -> <-]. eauto.
Qed.
End Trace.

(** C7, as the code has it: a call of the traced wrapper that returns has
    run the wrapped function one level deeper, after a line indented by the
    depth at entry, and has written its closing line one level up again; so
    where the wrapped function leaves the depth as it found it, as the
    nested calls of a recursion through the wrapper do, the depth after the
    call is the depth before.  The indentation is [indent] as many times as
    the depth says.  [fib] unwinds in this way at every level, and [fib(3)]
    prints its calls indented by their nesting. *)
Theorem trace_depth_unwinds :
  (∀ V (HV : PyValue V) indent (func : pyfun V) args kw s v s',
      call (trace indent func) args kw s = (Returns v, s') ->
      ∃ a s1,
        args = [a] ∧
        call func args kw
          (set_depth (fun d => d + 1)
             (set_stdout (fun out => out ++
                [str_mul indent (depth s) +:+ " --> " +:+
                 __name__ func +:+ "(" +:+ str a +:+ ")"]) s))
          = (Returns v, s1) ∧
        depth s' = depth s1 - 1 ∧
        stdout s' = stdout s1 ++
          [str_mul indent (depth s1 - 1) +:+ " <-- " +:+
           (__name__ func +:+ "(" +:+ str a +:+ ") == ") +:+ " " +:+ str v] ∧
        (depth s1 = depth s + 1 -> depth s' = depth s)) ∧
  (∀ indent d,
      String.length (str_mul indent d) = (Z.to_nat d * String.length indent)%nat) ∧
  (∀ limit n s, (Z.to_nat n < limit)%nat ->
      ∃ v s', call (fib limit) [n] [] s = (Returns v, s') ∧ depth s' = depth s) ∧
  stdout (call (fib 3) [3] [] fresh).2 =
    [" --> fib(3)";
     "#### --> fib(2)";
     "######## --> fib(1)";
     "######## <-- fib(1) ==  1";
     "######## --> fib(0)";
     "######## <-- fib(0) ==  1";
     "#### <-- fib(2) ==  2";
     "#### --> fib(1)";
     "#### <-- fib(1) ==  1";
     " <-- fib(3) ==  3"].
Proof.
  split; [|split; [|split]].
  - intros V HV indent func args kw s v s' E.
    apply trace_returns_inv in E as (a & s1 & -> & E & ->).
    exists a, s1. repeat split; try done. simpl. lia.
  - apply str_mul_length.
  - intros limit n s Hn.
    destruct (fib_with_returns _ _ ghost_hook_plain limit n s Hn)
      as (v & s' & k & E & Hd & _).
    by exists v, s'.
  - vm_compute. reflexivity.
Qed.

Lemma trace_depth_unwinds_witness :
  call (trace "####" (fib_def boom)) [1] [] fresh =
    (Returns 1, Store 0 ∅ 0 [" --> fib(1)"; " <-- fib(1) ==  1"] 0%nat) ∧
  depth (Store (V:=Z) 0 ∅ 0 [" --> fib(1)"; " <-- fib(1) ==  1"] 0%nat) = 0 ∧
  ∃ v (s' : store Z), call (fib 4) [3] [] fresh = (Returns v, s') ∧ depth s' = 0.
Proof.
  assert (E : call (trace "####" (fib_def boom)) [1] [] fresh =
                (Returns 1, Store 0 ∅ 0 [" --> fib(1)"; " <-- fib(1) ==  1"] 0%nat))
    by reflexivity.
  split; [exact E|]. split.
  - destruct (proj1 trace_depth_unwinds _ _ _ _ _ _ _ _ _ E)
      as (a & s1 & Ha & E1 & _ & _ & Hunwind).
    apply Hunwind. injection Ha as <-.
    vm_compute in E1. injection E1 as <-. reflexivity.
  - apply (proj1 (proj2 (proj2 trace_depth_unwinds)) 4%nat 3 fresh). vm_compute. lia.
Defined.

(** C7 as stated does not hold.  The wrapped function raises: the wrapper
    ends there, and the depth stays one above what it was.  And a wrapped
    function that swallows the error of a traced call nested in it returns,
    and so does its traced call, with the depth one above what it was. *)
Lemma trace_depth_stuck_on_error :
  ((call (trace "####" boom) [1] [] fresh).1 = Raises (Exception "boom") ∧
   depth (call (trace "####" boom) [1] [] fresh).2 = 1 ∧
   depth (call (trace "####" boom) [1] [] fresh).2 ≠ depth (fresh : store Z)) ∧
  ((call (trace "####" forgiving) [1] [] fresh).1 = Returns 1 ∧
   depth (call (trace "####" forgiving) [1] [] fresh).2 = 1 ∧
   depth (call (trace "####" forgiving) [1] [] fresh).2 ≠ depth (fresh : store Z)).
Proof.
  split; (split; [reflexivity|]; split; [reflexivity|discriminate]).
Qed.

(** * Name and docstring *)

(** C8: each wrapper answers with the name and the docstring of the
    function it wraps. *)
Theorem wrappers_keep_metadata {V : Type} `{!PyValue V} (f : pyfun V) (indent : string) :
  (__name__ (countcalls f) = __name__ f ∧ __doc__ (countcalls f) = __doc__ f) ∧
  (__name__ (memo f) = __name__ f ∧ __doc__ (memo f) = __doc__ f) ∧
  (__name__ (n_ary f) = __name__ f ∧ __doc__ (n_ary f) = __doc__ f) ∧
  (__name__ (trace indent f) = __name__ f ∧ __doc__ (trace indent f) = __doc__ f).
Proof. repeat split. Qed.

Lemma decorated_metadata limit :
  __name__ foo = "foo" ∧ __doc__ foo = None ∧
  __name__ (fib limit) = "fib" ∧ __doc__ (fib limit) = Some "Some doc".
Proof. destruct limit; repeat split. Qed.

(** * The session on [foo] *)

(** C3, as the code has it: [foo(4, 3)], [foo(4, 3, 2)], [foo(4, 3)] return
    7, 9 and 7; the counter reads 1, 2 and 3, advancing on each call, the
    repeated one included; the cache holds 1, 2 and 2 entries, growing only
    for a new argument tuple; and [main] prints that [foo] was called 3
    times. *)
Theorem foo_session :
  (session foo [[4; 3]; [4; 3; 2]; [4; 3]] fresh).1 =
    Returns [(7, 1, 1%nat); (9, 2, 2%nat); (7, 3, 2%nat)] ∧
  stdout (main_foo fresh).2 = ["7"; "9"; "7"; "foo was called 3 times"].
Proof. split; vm_compute; reflexivity. Qed.

Lemma main_prints :
  main 1000 =
    ["7"; "9"; "7"; "foo was called 3 times";
     "12"; "24"; "24"; "bar was called 3 times";
     "__doc__= Some doc";
     " --> fib(3)";
     "#### --> fib(2)";
     "######## --> fib(1)";
     "######## <-- fib(1) ==  1";
     "######## --> fib(0)";
     "######## <-- fib(0) ==  1";
     "#### <-- fib(2) ==  2";
     "#### --> fib(1)";
     "#### <-- fib(1) ==  1";
     " <-- fib(3) ==  3";
     "5 calls made"].
Proof. vm_compute. reflexivity. Qed.

(** C3 as stated does not hold: on the third call the cache does not grow,
    the call being answered from it, and the counter advances all the
    same. *)
Lemma foo_counter_advances_on_hit :
  match (session foo [[4; 3]; [4; 3; 2]; [4; 3]] fresh).1 with
  | Returns [(7, _, _); (9, n2, k2); (7, n3, k3)] => k3 = k2 ∧ n3 ≠ n2
  | _ => False
  end.
Proof. vm_compute. split; [reflexivity|discriminate]. Qed.

(** * Errors of the wrappers' own *)

Section Errors.
Context {V : Type} `{!PyValue V}.
Implicit Types (func f : pyfun V) (args : list V) (kw : kwargs V) (s : store V).


End Errors.



(** * Runs of the memoizer on the module's functions *)

Lemma memo_twice_witness :
  hash [4; 3] = Some (-2624276368889032825) ∧
  leaves_ticks chatty ∧
  (∀ s0, ∃ v s0', call chatty [4; 3] [] s0 = (Returns v, s0')) ∧
  ∃ r s1,
    call (memo (probe chatty)) [4; 3] [] fresh = (Returns r, s1) ∧
    call (memo (probe chatty)) [4; 3] [] s1 = (Returns r, s1) ∧
    (ticks s1 <= 0 + 1)%nat.
Proof.
  assert (Hf : leaves_ticks chatty) by (by intros args kw s o s' [= _ <-]).
  assert (Hret : ∀ s0, ∃ v s0', call chatty [4; 3] [] s0 = (Returns v, s0'))
    by (intros s0; by eexists _, _).
  split; [reflexivity|]. split; [exact Hf|]. split; [exact Hret|].
  exact (proj2 (memo_twice chatty [4; 3] []) (-2624276368889032825)
           eq_refl Hf Hret fresh).
Defined.

Lemma memo_ignores_kwargs_witness :
  call (memo (probe pick)) [1] [("k", 10)] fresh =
    (Returns 10, (call (memo (probe pick)) [1] [("k", 10)] fresh).2) ∧
  call pick [1] [("k", 20)] fresh = (Returns 20, fresh) ∧
  (∃ h, hash [1] = Some h ∧
        cache (call (memo (probe pick)) [1] [("k", 10)] fresh).2 !! h = Some 10 ∧
        ∀ args' kw', hash args' = Some h ->
          call (memo (probe pick)) args' kw'
               (call (memo (probe pick)) [1] [("k", 10)] fresh).2 =
            (Returns 10, (call (memo (probe pick)) [1] [("k", 10)] fresh).2)) ∧
  cache (fresh : store Z) !! CPython.tuplehash [1] = None ∧
  call (memo (probe pick)) [1] [("k", 20)] fresh =
    (Returns 20,
     set_cache (fun c => <[CPython.tuplehash [1] := 20]> c) (set_ticks S fresh)).
Proof.
  assert (E : call (memo (probe pick)) [1] [("k", 10)] fresh =
                (Returns 10, (call (memo (probe pick)) [1] [("k", 10)] fresh).2))
    by (vm_compute; reflexivity).
  assert (Hc : cache (fresh : store Z) !! CPython.tuplehash [1] = None)
    by (vm_compute; reflexivity).
  split; [exact E|]. split; [reflexivity|].
  split; [exact (proj1 (memo_ignores_kwargs pick) [1] [("k", 10)] fresh 10 _ E)|].
  split; [exact Hc|].
  exact (proj2 (memo_ignores_kwargs pick) [1] [("k", 20)] fresh
           (CPython.tuplehash [1]) (hash_int [1]) Hc).
Defined.

Lemma memo_never_evicts_witness :
  keeps_cache (constant 7) ∧
  cache (call (memo (constant 7)) [1] [] fresh).2 !! CPython.tuplehash [1] = Some 7 ∧
  call (memo (constant 7)) [1] [] (call (memo (constant 7)) [1] [] fresh).2 =
    (Returns 7, (call (memo (constant 7)) [1] [] fresh).2) ∧
  cache (call (memo (constant 7)) [2] []
           (call (memo (constant 7)) [1] [] fresh).2).2 !! CPython.tuplehash [1]
    = Some 7.
Proof.
  assert (Hk : keeps_cache (constant 7)) by (by intros args kw s o s' [= _ <-]).
  assert (E : cache (call (memo (constant 7)) [1] [] fresh).2
                !! CPython.tuplehash [1] = Some 7) by (vm_compute; reflexivity).
  split; [exact Hk|]. split; [exact E|]. split.
  - exact (proj1 (memo_never_evicts (constant 7)) [1] [] _ _ 7 eq_refl E).
  - destruct (call (memo (constant 7)) [2] []
                (call (memo (constant 7)) [1] [] fresh).2) as [o s'] eqn:E2.
    exact (proj1 (proj2 (memo_never_evicts (constant 7)) Hk) _ _ _ _ _ _ _ E2 E).
Defined.

(** An error is not a result and is not cached: a function that raises is
    invoked again by the next call with the same arguments. *)
Lemma memo_retries_after_error :
  (call (memo (probe boom)) [1] [] fresh).1 = Raises (Exception "boom") ∧
  ticks (call (memo (probe boom)) [1] []
           (call (memo (probe boom)) [1] [] fresh).2).2 = 2%nat.
Proof. split; reflexivity. Qed.

(** * Further properties of the wrappers *)

Section Further.
Context {V : Type} `{!PyValue V}.
Implicit Types (func f : pyfun V) (args : list V) (kw : kwargs V) (s : store V).

Lemma call_each_cons f args kw requests s :
  call_each f ((args, kw) :: requests) s =
    match call f args kw s with
    | (Returns v, s1) =>
        match call_each f requests s1 with
        | (Returns vs, s2) => (Returns (v :: vs), s2)
        | (Raises e, s2) => (Raises e, s2)
        end
    | (Raises e, s1) => (Raises e, s1)
    end.
Proof.
  unfold call_each. change (mapM ?g ((args, kw) :: requests))
    with (y ← g (args, kw); k ← mapM g requests; mret (y :: k)).
  py_unfold. cbn [fst snd].
  destruct (call f args kw s) as [[v|e] s1]; [|done].
  match goal with
  | |- context [let (_, _) := ?m in _] => by destruct m as [[vs|e] s2]
  end.
Qed.

(** X1: [disable] and [decorator] change nothing: a call of the wrapper is
    the call of the function, outcome and state, and the wrapper carries the
    function's name and docstring; so under a counting, a memoizing or a
    tracing wrapper it makes no difference whether the function or its
    [disable]d or [decorator]ed version is wrapped, the traced lines
    included. *)
Theorem disable_decorator_transparent f :
  (∀ args kw s, call (disable f) args kw s = call f args kw s) ∧
  (∀ args kw s, call (decorator f) args kw s = call f args kw s) ∧
  (__name__ (disable f) = __name__ f ∧ __doc__ (disable f) = __doc__ f) ∧
  (__name__ (decorator f) = __name__ f ∧ __doc__ (decorator f) = __doc__ f) ∧
  (∀ g, g = disable f ∨ g = decorator f ->
     ∀ indent args kw s,
       call (countcalls g) args kw s = call (countcalls f) args kw s ∧
       call (memo g) args kw s = call (memo f) args kw s ∧
       call (trace indent g) args kw s = call (trace indent f) args kw s).
Proof.
  assert (Hdec : ∀ args kw s, call (decorator f) args kw s = call f args kw s).
  { intros args kw s. unfold decorator; simpl; py_unfold.
    by destruct (call f args kw s) as [[v|e] s']. }
  split; [reflexivity|]. split; [exact Hdec|]. split; [done|]. split; [done|].
  intros g [->| ->] indent args kw s; [done|].
  split; [by rewrite !countcalls_call, Hdec|].
  split; [by rewrite !memo_call, Hdec|].
  destruct args as [|a [|b args]]; [done| |done].
  rewrite !trace_call.
  change (enter indent (decorator f) a s) with (enter indent f a s).
  rewrite Hdec. by destruct (call f [a] kw _) as [[v|e] s'].
Qed.

(** X2: the cache cannot tell two argument tuples with one hash apart:
    after a call that returned, a call with other arguments of the same hash
    returns that result, and the wrapped function is not invoked. *)
Theorem memo_conflates_equal_hashes func a1 a2 kw1 kw2 h s v s1 :
  hash a1 = Some h -> hash a2 = Some h ->
  call (memo (probe func)) a1 kw1 s = (Returns v, s1) ->
  call (memo (probe func)) a2 kw2 s1 = (Returns v, s1).
Proof.
  intros H1 H2 E. apply memo_returns_cached in E as (h' & Hh' & Hv).
  rewrite H1 in Hh'. injection Hh' as <-. by apply memo_hit with h.
Qed.

(** X3: an error is not cached.  When the key is absent and the function
    raises, the wrapper raises the same error and stores nothing; for a
    function that raises whatever the state, the next call invokes it
    again. *)
Theorem memo_error_not_cached f args kw h e s :
  hash args = Some h -> cache s !! h = None ->
  (∀ s0, call f args kw s0 = (Raises e, s0)) ->
  call (memo (probe f)) args kw s = (Raises e, set_ticks S s) ∧
  call (memo (probe f)) args kw (set_ticks S s) =
    (Raises e, set_ticks S (set_ticks S s)) ∧
  cache (set_ticks S (set_ticks S s)) = cache s.
Proof.
  intros Hh Hc Hf. split; [|split; [|done]].
  - by rewrite memo_call, Hh, Hc, probe_call, Hf.
  - rewrite memo_call, Hh. change (cache (set_ticks S s)) with (cache s).
    by rewrite Hc, probe_call, Hf.
Qed.

Lemma cache_sound_insert D spec (c : gmap Z V) a h :
  collision_free D -> D a -> hash a = Some h ->
  cache_sound D spec c -> cache_sound D spec (<[h := spec a]> c).
Proof.
  intros [_ Hinj] Ha Hh Hc b k v Hb Hk.
  destruct (decide (k = h)) as [->|Hne].
  - rewrite lookup_insert_eq. intros [= <-].
    by rewrite (Hinj a b h Ha Hb Hh Hk).
  - rewrite lookup_insert_ne by done. by apply Hc.
Qed.

Lemma memo_computes_call D spec f args s :
  collision_free D -> computes D spec f -> D args ->
  cache_sound D spec (cache s) ->
  ∃ s', call (memo f) args [] s = (Returns (spec args), s') ∧
        cache_sound D spec (cache s').
Proof.
  intros HD Hf Ha Hc. destruct (proj1 HD args Ha) as [h Hh].
  rewrite memo_call, Hh. destruct (cache s !! h) as [v|] eqn:Hv.
  - rewrite (Hc args h v Ha Hh Hv). eauto.
  - rewrite Hf by done. eexists. split; [done|]. simpl.
    by apply cache_sound_insert.
Qed.

(** X4: where no two argument tuples of interest share a hash, the
    memoized function computes what the function computes: from a cache
    that holds right values, every call returns the function's value and
    leaves a cache that holds right values, and so does every run of
    calls. *)
Theorem memo_computes D spec f :
  collision_free D -> computes D spec f ->
  (∀ args s, D args -> cache_sound D spec (cache s) ->
     ∃ s', call (memo f) args [] s = (Returns (spec args), s') ∧
           cache_sound D spec (cache s')) ∧
  (∀ argss s,
     Forall D argss ->
     cache_sound D spec (cache s) ->
     ∃ s', call_each (memo f) (positional argss) s =
             (Returns (spec <$> argss), s') ∧
           cache_sound D spec (cache s')).
Proof.
  intros HD Hf. split.
  - intros. by apply memo_computes_call.
  - induction argss as [|args argss IH]; intros s Hall Hc.
    + by exists s.
    + apply Forall_cons in Hall as [Ha Hall].
      destruct (memo_computes_call D spec f args s HD Hf Ha Hc)
        as (s1 & E1 & Hc1).
      destruct (IH s1 Hall Hc1) as (s2 & E2 & Hc2).
      exists s2. split; [|done].
      change (positional (args :: argss)) with ((args, []) :: positional argss).
      by rewrite call_each_cons, E1, E2.
Qed.

Lemma memo_cache_step f args kw s o s' :
  leaves_cache f -> call (memo f) args kw s = (o, s') ->
  cache s' = cache s ∨
  ∃ h v, hash args = Some h ∧ cache s' = <[h := v]> (cache s).
Proof.
  intros Hf. rewrite memo_call. destruct (hash args) as [h|]; [|by intros [= _ <-]; left].
  destruct (cache s !! h); [by intros [= _ <-]; left|].
  destruct (call f args kw s) as [[v|e] s1] eqn:E; intros [= _ <-].
  - right. exists h, v. split; [done|]. simpl. by rewrite (Hf _ _ _ _ _ E).
  - left. by eapply Hf.
Qed.

Lemma memo_probe_step f args kw s o s' :
  (∀ args kw s0, ∃ v, call f args kw s0 = (Returns v, s0)) ->
  call (memo (probe f)) args kw s = (o, s') ->
  (ticks s' + size (cache s) = ticks s + size (cache s'))%nat.
Proof.
  intros Hf. rewrite memo_call. destruct (hash args) as [h|]; [|by intros [= _ <-]].
  destruct (cache s !! h) eqn:Hc; [by intros [= _ <-]|].
  rewrite probe_call. destruct (Hf args kw (set_ticks S s)) as [v ->].
  intros [= _ <-]. simpl. rewrite map_size_insert_None by done. lia.
Qed.

(** X17: one invocation for each entry.  With a function that returns
    whatever it is given and leaves the state alone, over any run of calls
    of the memoized function the invocations of the function are as many as
    the entries the cache has gained. *)
Theorem memo_one_invocation_per_entry f requests s o s' :
  (∀ args kw s0, ∃ v, call f args kw s0 = (Returns v, s0)) ->
  call_each (memo (probe f)) requests s = (o, s') ->
  (ticks s' + size (cache s) = ticks s + size (cache s'))%nat.
Proof.
  intros Hf. revert s o s'.
  induction requests as [|[args kw] requests IH]; intros s o s'.
  - by intros [= _ <-].
  - rewrite call_each_cons.
    destruct (call (memo (probe f)) args kw s) as [[v|e] s1] eqn:E1.
    + pose proof (memo_probe_step _ _ _ _ _ _ Hf E1) as H1.
      destruct (call_each (memo (probe f)) requests s1) as [o2 s2] eqn:E2.
      pose proof (IH _ _ _ E2) as H2.
      intros Hend. assert (s' = s2) as -> by (by destruct o2; injection Hend).
      lia.
    + intros [= _ <-]. by eapply memo_probe_step.
Qed.

(** X5: the cache holds nothing but what was asked for.  With a function
    that leaves the cache alone, after a run of calls every key of the cache
    was there before or is the hash of the arguments of one of the calls, and
    the cache has grown by at most one entry per call. *)
Theorem memo_caches_only_requests f requests s o s' :
  leaves_cache f ->
  call_each (memo f) requests s = (o, s') ->
  (∀ k, is_Some (cache s' !! k) ->
     is_Some (cache s !! k) ∨
     ∃ request, request ∈ requests ∧ hash request.1 = Some k) ∧
  (size (cache s') <= size (cache s) + length requests)%nat.
Proof.
  intros Hf. revert s o s'.
  induction requests as [|[args kw] requests IH]; intros s o s'.
  - intros [= _ <-]. split; [by left|simpl; lia].
  - rewrite call_each_cons.
    destruct (call (memo f) args kw s) as [[v|e] s1] eqn:E1.
    + assert (Hstep := memo_cache_step _ _ _ _ _ _ Hf E1).
      destruct (call_each (memo f) requests s1) as [o2 s2] eqn:E2.
      destruct (IH s1 o2 s2 E2) as [Hkeys Hsize].
      intros Hend. assert (s' = s2) as -> by (by destruct o2; injection Hend).
      split.
      * intros k Hk. destruct (Hkeys k Hk) as [Hk1|(r & Hr & Hrk)].
        -- destruct Hstep as [Heq|(h & w & Hh & Heq)]; rewrite Heq in Hk1;
             [by left|].
           destruct (decide (k = h)) as [->|Hne].
           ++ right. exists (args, kw). split; [apply list_elem_of_here|done].
           ++ left. by rewrite lookup_insert_ne in Hk1.
        -- right. exists r. split; [by apply list_elem_of_further|done].
      * simpl length. destruct Hstep as [Heq|(h & w & Hh & Heq)];
          rewrite Heq in Hsize.
        -- lia.
        -- pose proof (map_size_insert h w (cache s)) as Hins.
           destruct (cache s !! h); simpl in Hins; lia.
    + intros [= _ <-]. assert (Hstep := memo_cache_step _ _ _ _ _ _ Hf E1).
      split.
      * intros k Hk. destruct Hstep as [Heq|(h & w & Hh & Heq)];
          rewrite Heq in Hk; [by left|].
        destruct (decide (k = h)) as [->|Hne].
        -- right. exists (args, kw). split; [apply list_elem_of_here|done].
        -- left. by rewrite lookup_insert_ne in Hk.
      * simpl length. destruct Hstep as [Heq|(h & w & Hh & Heq)]; rewrite Heq.
        -- lia.
        -- pose proof (map_size_insert h w (cache s)) as Hins.
           destruct (cache s !! h); simpl in Hins; lia.
Qed.
End Further.

Section FurtherCalls.
Context {V : Type} `{!PyValue V}.
Implicit Types (func f : pyfun V) (args : list V) (kw : kwargs V) (s : store V).

(** X6: the counter counts the calls that returned.  With a function that
    leaves the counter alone, a run of calls that all return advances it by
    the number of calls, and a run that an error ends by less. *)
Theorem countcalls_counts_returns f requests s o s' :
  leaves_calls f ->
  call_each (countcalls f) requests s = (o, s') ->
  (∀ vs, o = Returns vs ->
     calls s' = calls s + Z.of_nat (length requests) ∧
     length vs = length requests) ∧
  (∀ e, o = Raises e ->
     calls s <= calls s' < calls s + Z.of_nat (length requests)).
Proof.
  intros Hf. revert s o s'.
  induction requests as [|[args kw] requests IH]; intros s o s'.
  - intros [= <- <-]. split; [|done]. intros vs [= <-]. simpl. split; [lia|done].
  - rewrite call_each_cons, countcalls_call.
    destruct (call f args kw s) as [[v|e] s1] eqn:E1.
    + apply Hf in E1.
      destruct (call_each (countcalls f) requests _) as [o2 s2] eqn:E2.
      destruct (IH _ _ _ E2) as [Hret Hraise]. simpl in Hret, Hraise.
      destruct o2 as [vs|e]; intros [= <- <-].
      * split; [|done]. intros ? [= <-].
        destruct (Hret vs eq_refl) as [Hc Hl]. simpl. split; lia.
      * split; [done|]. intros ? [= <-].
        specialize (Hraise e eq_refl). simpl length. lia.
    + apply Hf in E1. intros [= <- <-]. split; [done|].
      intros ? _. simpl length. lia.
Qed.

Lemma n_ary_func_pure f (g : V -> V -> V) xs z s :
  (∀ x y s0, call f [x; y] [] s0 = (Returns (g x y), s0)) ->
  n_ary_func f (xs ++ [z]) s = (Returns (foldr g z xs), s).
Proof.
  intros Hg. rewrite n_ary_func_snoc. revert s.
  induction xs as [|x xs IH]; intros s; [reflexivity|].
  simpl. py_unfold. rewrite IH. apply Hg.
Qed.

(** X7: called with [n] arguments, [n] at least 1, the n-ary wrapper of a
    pure binary function invokes it [n - 1] times. *)
Theorem n_ary_invocations f (g : V -> V -> V) xs z s :
  (∀ x y s0, call f [x; y] [] s0 = (Returns (g x y), s0)) ->
  call (n_ary (probe f)) (xs ++ [z]) [] s =
    (Returns (right_fold g xs z), set_ticks (fun t => (length xs + t)%nat) s).
Proof.
  intros Hg. change (call (n_ary (probe f)) (xs ++ [z]) [] s)
    with (n_ary_func (probe f) (xs ++ [z]) s).
  rewrite n_ary_func_snoc. revert s.
  induction xs as [|x xs IH]; intros s; [by destruct s|].
  cbn [foldr]. py_unfold. rewrite IH, probe_call, Hg. reflexivity.
Qed.

(** X8: a call that the n-ary wrapper refuses, one without positional
    arguments or one with a keyword argument, fails with a [TypeError]
    through the memoizing and the counting wrapper and leaves counter and
    cache as they were, provided the cache has no entry under the hash of
    its positional arguments; where it has one, the call returns that entry
    and is counted. *)
Theorem refused_call_through_the_stack f args kw h s :
  hash args = Some h ->
  (args = [] ∨ kw ≠ []) ->
  (cache s !! h = None ->
     ∃ msg, call (countcalls (memo (n_ary f))) args kw s =
              (Raises (TypeError msg), s) ∧
            (kw = [] -> msg = __name__ f +:+ "() of empty sequence")) ∧
  (∀ v, cache s !! h = Some v ->
     call (countcalls (memo (n_ary f))) args kw s =
       (Returns v, set_calls (fun c => c + 1) s)).
Proof.
  intros Hh Hshape. split.
  - intros Hc. rewrite countcalls_call, memo_call, Hh, Hc.
    destruct kw as [|[k w] kw].
    + destruct Hshape as [->|]; [|done]. eexists. split; [reflexivity|done].
    + eexists. split; [reflexivity|done].
  - intros v Hc. by rewrite countcalls_call, memo_call, Hh, Hc.
Qed.

(** X9: called with no or with several positional arguments, the tracing
    wrapper fails with a [TypeError] of its format; nothing is printed, the
    depth is as before and the wrapped function has not been called. *)
Theorem trace_refuses_other_arities indent func args kw s :
  length args ≠ 1%nat ->
  ∃ msg,
    call (trace indent (probe func)) args kw s = (Raises (TypeError msg), s).
Proof.
  intros Hlen. destruct args as [|a [|b args]]; [|done|]; by eexists.
Qed.


(** X11: around a call that returns, the tracing wrapper prints one line
    before and one line after what the wrapped function prints, both
    indented by the depth at entry, and leaves the depth as it was, provided
    the wrapped function leaves the depth as it finds it and only adds to
    what is printed; the traced function then does so too, so tracers
    nest. *)
Theorem trace_brackets_the_call indent func :
  nests_well func ->
  (∀ a kw s v s',
     call (trace indent func) [a] kw s = (Returns v, s') ->
     depth s' = depth s ∧
     ∃ printed,
       stdout s' =
         stdout s ++ [entering indent func a (depth s)] ++ printed
           ++ [leaving indent func a v (depth s)]) ∧
  nests_well (trace indent func).
Proof.
  intros Hf.
  assert (Hcall : ∀ a kw s v s',
     call (trace indent func) [a] kw s = (Returns v, s') ->
     depth s' = depth s ∧
     ∃ printed,
       stdout s' =
         stdout s ++ [entering indent func a (depth s)] ++ printed
           ++ [leaving indent func a v (depth s)]).
  { intros a kw s v s'. rewrite trace_call.
    destruct (call func [a] kw _) as [[w|e] s1] eqn:E; [|done].
    intros [= -> <-]. destruct (Hf _ _ _ _ _ E) as [Hd [printed Hout]].
    simpl in Hd, Hout. split; [simpl; lia|].
    exists printed. simpl. rewrite Hout, Hd.
    replace (depth s + 1 - 1) with (depth s) by lia.
    by rewrite <- !app_assoc. }
  split; [exact Hcall|].
  intros args kw s v s' E.
  destruct (trace_returns_inv _ _ _ _ _ _ _ E) as (a & s1 & -> & _ & _).
  destruct (Hcall _ _ _ _ _ E) as [Hd [printed Hout]].
  split; [done|]. eexists. exact Hout.
Qed.
End FurtherCalls.

(** * Further properties of the decorated functions *)

Lemma sum_snoc xs z : foldr Z.add z xs = foldr Z.add 0 (xs ++ [z]).
Proof. rewrite foldr_app. simpl. by rewrite Z.add_0_r. Qed.

Lemma product_snoc xs z : foldr Z.mul z xs = foldr Z.mul 1 (xs ++ [z]).
Proof. rewrite foldr_app. simpl. by rewrite Z.mul_1_r. Qed.

(** X12: on arguments whose hash is not in the cache, [foo] returns their
    sum and [bar] their product, for any number of arguments from one on;
    the result is stored under the hash and the call is counted. *)
Theorem foo_adds_bar_multiplies (args : list Z) (s : store Z) :
  args ≠ [] ->
  cache s !! CPython.tuplehash args = None ->
  call foo args [] s =
    (Returns (foldr Z.add 0 args),
     set_calls (fun c => c + 1)
       (set_cache (fun c => <[CPython.tuplehash args := foldr Z.add 0 args]> c) s)) ∧
  call bar args [] s =
    (Returns (foldr Z.mul 1 args),
     set_calls (fun c => c + 1)
       (set_cache (fun c => <[CPython.tuplehash args := foldr Z.mul 1 args]> c) s)).
Proof.
  intros Hne Hc. destruct (exists_last Hne) as (xs & z & ->).
  unfold foo, bar. rewrite !countcalls_call, !memo_call, hash_int, Hc.
  change (call (n_ary foo_def) (xs ++ [z]) [] s)
    with (n_ary_func foo_def (xs ++ [z]) s).
  change (call (n_ary bar_def) (xs ++ [z]) [] s)
    with (n_ary_func bar_def (xs ++ [z]) s).
  rewrite (n_ary_func_pure foo_def Z.add), (n_ary_func_pure bar_def Z.mul)
    by reflexivity.
  by rewrite sum_snoc, product_snoc.
Qed.

Lemma fib_value_base n : n <= 1 -> fib_value n = 1.
Proof.
  intros Hn. unfold fib_value.
  destruct (Z.to_nat n) as [|[|k]] eqn:E; [done|done|lia].
Qed.

Lemma fib_value_step n :
  2 <= n -> fib_value n = fib_value (n - 1) + fib_value (n - 2).
Proof.
  intros Hn. unfold fib_value.
  replace (Z.to_nat n) with (S (S (Z.to_nat (n - 2)))) by lia.
  replace (Z.to_nat (n - 1)) with (S (Z.to_nat (n - 2))) by lia.
  simpl. destruct (fib_pair (Z.to_nat (n - 2))) as [a b]. simpl. lia.
Qed.

(** One level of [fib]: the counting, the tracing and the memoizing wrapper
    around the body. *)
Lemma fib_call_hit limit n s v :
  cache s !! CPython.tuplehash [n] = Some v ->
  call (fib (S limit)) [n] [] s =
    (Returns v,
     set_calls (fun c => c + 1)
       (leave "####" (memo (fib_def (fib limit))) n v
          (enter "####" (memo (fib_def (fib limit))) n s))).
Proof.
  intros Hc.
  change (fib (S limit))
    with (countcalls (trace "####" (memo (fib_def (fib limit))))).
  rewrite countcalls_call, trace_call, memo_call, hash_int.
  change (cache (enter _ _ n s)) with (cache s). by rewrite Hc.
Qed.

Lemma fib_call_miss limit n s :
  cache s !! CPython.tuplehash [n] = None ->
  call (fib (S limit)) [n] [] s =
    match call (fib_def (fib limit)) [n] []
            (enter "####" (memo (fib_def (fib limit))) n s) with
    | (Returns v, s1) =>
        (Returns v,
         set_calls (fun c => c + 1)
           (leave "####" (memo (fib_def (fib limit))) n v
              (set_cache (fun c => <[CPython.tuplehash [n] := v]> c) s1)))
    | (Raises e, s1) => (Raises e, s1)
    end.
Proof.
  intros Hc.
  change (fib (S limit))
    with (countcalls (trace "####" (memo (fib_def (fib limit))))).
  rewrite countcalls_call, trace_call, memo_call, hash_int.
  change (cache (enter _ _ n s)) with (cache s). rewrite Hc.
  by destruct (call (fib_def (fib limit)) [n] [] _) as [[v|e] s1].
Qed.

Lemma fib_cache_sound_insert N (c : gmap Z Z) n :
  fib_keys_distinct N -> 0 <= n <= N ->
  fib_cache_sound N c ->
  fib_cache_sound N (<[CPython.tuplehash [n] := fib_value n]> c).
Proof.
  intros Hinj Hn Hc k v Hk.
  destruct (decide (CPython.tuplehash [k] = CPython.tuplehash [n])) as [E|Hne].
  - rewrite E, lookup_insert_eq. intros [= <-]. by rewrite (Hinj k n Hk Hn E).
  - rewrite lookup_insert_ne by done. by apply Hc.
Qed.

Ltac store_simpl :=
  cbn [cache calls depth stdout ticks
       leave enter set_calls set_stdout set_depth set_cache set_ticks].

Lemma fib_returns_value N :
  fib_keys_distinct N ->
  ∀ limit n s, 0 <= n <= N -> (Z.to_nat n < limit)%nat ->
    fib_cache_sound N (cache s) ->
    ∃ s', call (fib limit) [n] [] s = (Returns (fib_value n), s') ∧
          fib_cache_sound N (cache s') ∧
          cache s' !! CPython.tuplehash [n] = Some (fib_value n).
Proof.
  intros Hinj. induction limit as [|limit IH]; intros n s Hn Hlim Hc; [lia|].
  destruct (cache s !! CPython.tuplehash [n]) as [v|] eqn:Hhit.
  - rewrite (fib_call_hit _ _ _ _ Hhit). pose proof (Hc n v Hn Hhit) as ->.
    eexists. split; [done|]. store_simpl. done.
  - rewrite (fib_call_miss _ _ _ Hhit), fib_def_call.
    set (s0 := enter "####" (memo (fib_def (fib limit))) n s).
    assert (Hc0 : cache s0 = cache s) by done. clearbody s0.
    destruct (decide (n <= 1)) as [Hle|Hgt].
    + rewrite <- (fib_value_base n Hle). eexists. split; [done|]. store_simpl.
      rewrite Hc0. split; [by apply fib_cache_sound_insert|].
      apply lookup_insert_eq.
    + destruct (IH (n - 1) s0) as (s1 & E1 & Hc1 & _);
        [lia|lia|by rewrite Hc0|].
      destruct (IH (n - 2) s1) as (s2 & E2 & Hc2 & _); [lia|lia|done|].
      rewrite E1, E2, <- fib_value_step by lia.
      eexists. split; [done|]. store_simpl.
      split; [by apply fib_cache_sound_insert|]. apply lookup_insert_eq.
Qed.

(** X13: [fib] computes the Fibonacci numbers.  Where the hashes of the
    arguments from 0 to [N] are all different and the cache holds right
    numbers under them, a call on [n] from 0 to [N], with room for the
    nesting, returns the number [fib_value n], which is 1 at 0 and 1 and the
    sum of the two before from 2 on, and leaves a cache that holds right
    numbers, this one among them. *)
Theorem fib_computes_fibonacci N limit n s :
  fib_keys_distinct N ->
  0 <= n <= N -> (Z.to_nat n < limit)%nat ->
  fib_cache_sound N (cache s) ->
  (∃ s', call (fib limit) [n] [] s = (Returns (fib_value n), s') ∧
         fib_cache_sound N (cache s') ∧
         cache s' !! CPython.tuplehash [n] = Some (fib_value n)) ∧
  (n <= 1 -> fib_value n = 1) ∧
  (2 <= n -> fib_value n = fib_value (n - 1) + fib_value (n - 2)).
Proof.
  intros Hinj Hn Hlim Hc. split; [by apply (fib_returns_value N)|].
  split; [apply fib_value_base|apply fib_value_step].
Qed.

(** X14: every call of [fib] through its name prints two lines.  With room
    for the nesting, a call on an integer returns, and what it has added to
    the output is twice as many lines as it has added to the counter. *)
Theorem fib_prints_two_lines_per_call limit n s :
  (Z.to_nat n < limit)%nat ->
  ∃ v s' (k : nat) printed,
    call (fib limit) [n] [] s = (Returns v, s') ∧
    calls s' = calls s + Z.of_nat k ∧
    stdout s' = stdout s ++ printed ∧
    length printed = (2 * k)%nat.
Proof.
  revert n s. induction limit as [|limit IH]; intros n s Hlim; [lia|].
  destruct (cache s !! CPython.tuplehash [n]) as [v|] eqn:Hhit.
  - rewrite (fib_call_hit _ _ _ _ Hhit).
    eexists _, _, 1%nat, [_; _]. split; [done|]. store_simpl.
    split; [done|]. split; [|done]. by rewrite <- app_assoc.
  - rewrite (fib_call_miss _ _ _ Hhit), fib_def_call.
    set (s0 := enter "####" (memo (fib_def (fib limit))) n s).
    assert (Hs0 : calls s0 = calls s ∧ stdout s0 = stdout s ++ [_]) by done.
    destruct Hs0 as [Hn0 Ho0]. clearbody s0.
    destruct (decide (n <= 1)) as [Hle|Hgt].
    + eexists _, _, 1%nat, [_; _]. split; [done|]. store_simpl.
      rewrite Hn0, Ho0. split; [done|]. split; [|done]. by rewrite <- app_assoc.
    + destruct (IH (n - 1) s0) as (x & s1 & k1 & p1 & E1 & Hn1 & Ho1 & Hl1);
        [lia|].
      destruct (IH (n - 2) s1) as (y & s2 & k2 & p2 & E2 & Hn2 & Ho2 & Hl2);
        [lia|].
      rewrite E1, E2.
      eexists _, _, (S (k1 + k2)), (_ :: p1 ++ p2 ++ [_]).
      split; [done|]. store_simpl. rewrite Ho2, Ho1, Ho0, Hn2, Hn1, Hn0.
      split; [lia|]. split.
      * rewrite <- !app_assoc. reflexivity.
      * simpl. rewrite !length_app. simpl. lia.
Qed.

Lemma fib_leaf limit n s :
  n <= 1 -> cache s !! CPython.tuplehash [n] = None ->
  call (fib (S limit)) [n] [] s =
    (Returns 1,
     set_calls (fun c => c + 1)
       (leave "####" (memo (fib_def (fib limit))) n 1
          (set_cache (fun c => <[CPython.tuplehash [n] := 1]> c)
             (enter "####" (memo (fib_def (fib limit))) n s)))).
Proof.
  intros Hle Hc. rewrite (fib_call_miss _ _ _ Hc), fib_def_call.
  by destruct (decide (n <= 1)).
Qed.

Lemma fib_keys_0_1 : CPython.tuplehash [0] ≠ CPython.tuplehash [1].
Proof. vm_compute. discriminate. Qed.

Lemma fib_from_empty_cache k :
  ∀ limit s, (k + 2 < limit)%nat -> cache s = ∅ ->
    ∃ v s',
      call (fib limit) [Z.of_nat k + 2] [] s = (Returns v, s') ∧
      calls s' = calls s + (2 * (Z.of_nat k + 2) - 1) ∧
      ∀ j, 0 <= j <= Z.of_nat k + 2 ->
        is_Some (cache s' !! CPython.tuplehash [j]).
Proof.
  induction k as [|k IH]; intros limit s Hlim Hempty.
  - destruct limit as [|[|limit]]; [lia..|].
    change (Z.of_nat 0 + 2) with 2.
    rewrite fib_call_miss by (by rewrite Hempty).
    rewrite fib_def_call. destruct (decide (2 <= 1)) as [|_]; [lia|].
    change (2 - 1) with 1. change (2 - 2) with 0.
    set (s0 := enter "####" (memo (fib_def (fib (S limit)))) 2 s).
    assert (Hs0 : calls s0 = calls s ∧ cache s0 = ∅) by done.
    destruct Hs0 as [Hn0 Hc0]. clearbody s0.
    rewrite (fib_leaf limit 1 s0) by (rewrite ?Hc0; done).
    rewrite (fib_leaf limit 0) by
      (store_simpl; rewrite ?Hc0, ?lookup_insert_ne; [done..|];
       intros E; by apply fib_keys_0_1).
    eexists _, _. split; [done|]. store_simpl. rewrite Hn0, Hc0.
    split; [lia|]. intros j Hj.
    assert (j = 0 ∨ j = 1 ∨ j = 2) as [->|[->| ->]] by lia;
      vm_compute; by eexists.
  - destruct limit as [|limit]; [lia|].
    rewrite fib_call_miss by (by rewrite Hempty).
    rewrite fib_def_call.
    destruct (decide (Z.of_nat (S k) + 2 <= 1)) as [|_]; [lia|].
    replace (Z.of_nat (S k) + 2 - 1) with (Z.of_nat k + 2) by lia.
    set (n := Z.of_nat (S k) + 2).
    set (s0 := enter "####" (memo (fib_def (fib limit))) n s).
    assert (Hs0 : calls s0 = calls s ∧ cache s0 = ∅) by done.
    destruct Hs0 as [Hn0 Hc0]. clearbody s0.
    destruct (IH limit s0) as (x & s1 & E1 & Hn1 & Hk1); [lia|done|].
    rewrite E1.
    destruct (Hk1 (n - 2)) as [y Hy]; [lia|].
    destruct limit as [|limit]; [lia|].
    rewrite (fib_call_hit _ _ _ _ Hy).
    eexists _, _. split; [done|]. store_simpl. rewrite Hn1, Hn0.
    split; [lia|]. intros j Hj. rewrite lookup_insert_is_Some.
    destruct (decide (CPython.tuplehash [n] = CPython.tuplehash [j]));
      [by left|]. right. split; [done|].
    apply Hk1. assert (j ≠ n) by (by intros ->). lia.
Qed.

(** X15: memoized, [fib] is linear.  Starting from an empty cache and with
    room for the nesting, a call on [n] from 2 on returns after [2 n - 1]
    calls through the name, its own included, and leaves an entry in the
    cache under the hash of every argument from 0 to [n]; a call on [n] up
    to 1 returns after one call. *)
Theorem fib_calls_linear limit n s :
  (Z.to_nat n < limit)%nat -> cache s = ∅ ->
  ∃ v s',
    call (fib limit) [n] [] s = (Returns v, s') ∧
    calls s' = calls s + Z.max 1 (2 * n - 1) ∧
    (2 <= n -> ∀ j, 0 <= j <= n -> is_Some (cache s' !! CPython.tuplehash [j])).
Proof.
  intros Hlim Hempty. destruct (decide (n <= 1)) as [Hle|Hgt].
  - destruct limit as [|limit]; [lia|].
    rewrite fib_leaf by (rewrite ?Hempty; done).
    eexists _, _. split; [done|]. store_simpl. split; [lia|]. lia.
  - destruct (fib_from_empty_cache (Z.to_nat (n - 2)) limit s)
      as (v & s' & E & Hn & Hk); [lia|done|].
    replace (Z.of_nat (Z.to_nat (n - 2)) + 2) with n in * by lia.
    exists v, s'. split; [done|]. split; [lia|]. intros _. exact Hk.
Qed.

(** * The hashes of [fib]'s arguments *)

Lemma u64_range x : 0 <= CPython.u64 x < 2 ^ 64.
Proof. apply Z.mod_pos_bound. lia. Qed.

Lemma u64_small x : 0 <= x < 2 ^ 64 -> CPython.u64 x = x.
Proof. apply Z.mod_small. Qed.

Lemma u64_mul_cancel P Q x y :
  (P * Q) mod 2 ^ 64 = 1 ->
  0 <= x < 2 ^ 64 -> 0 <= y < 2 ^ 64 ->
  CPython.u64 (x * P) = CPython.u64 (y * P) -> x = y.
Proof.
  unfold CPython.u64. intros HPQ Hx Hy E.
  assert (H : ∀ z, 0 <= z < 2 ^ 64 -> z = ((z * P) mod 2 ^ 64 * Q) mod 2 ^ 64).
  { intros z Hz. rewrite Z.mul_mod_idemp_l by lia.
    rewrite <- Z.mul_assoc, <- Z.mul_mod_idemp_r, HPQ, Z.mul_1_r by lia.
    symmetry. by apply Z.mod_small. }
  rewrite (H x Hx), (H y Hy). by rewrite E.
Qed.

Lemma u64_add_cancel c a b :
  CPython.u64 (c + a) = CPython.u64 (c + b) -> CPython.u64 a = CPython.u64 b.
Proof.
  unfold CPython.u64. intros E.
  replace a with (c + a - c) by lia. replace b with (c + b - c) by lia.
  rewrite (Zminus_mod (c + a)), (Zminus_mod (c + b)). by rewrite E.
Qed.

Lemma XXROTATE_arith x :
  0 <= x < 2 ^ 64 ->
  CPython.XXROTATE x = (x mod 2 ^ 33) * 2 ^ 31 + x / 2 ^ 33.
Proof.
  intros Hx. unfold CPython.XXROTATE, CPython.u64.
  rewrite Z.shiftl_mul_pow2, Z.shiftr_div_pow2 by lia.
  pose proof (Z.div_mod x (2 ^ 33) ltac:(lia)) as Hdm.
  pose proof (Z.mod_pos_bound x (2 ^ 33) ltac:(lia)) as Hlo.
  assert (Hhi : 0 <= x / 2 ^ 33 < 2 ^ 31).
  { split; [apply Z.div_pos; lia|]. apply Z.div_lt_upper_bound; lia. }
  assert (Hshift : (x * 2 ^ 31) mod 2 ^ 64 = (x mod 2 ^ 33) * 2 ^ 31).
  { symmetry. apply (Z.mod_unique_pos _ _ (x / 2 ^ 33)); lia. }
  rewrite Hshift, <- Z.add_lor_land.
  assert (Hland : Z.land (x mod 2 ^ 33 * 2 ^ 31) (x / 2 ^ 33) = 0).
  { apply Z.bits_inj'. intros n Hn. rewrite Z.land_spec, Z.bits_0.
    destruct (decide (n < 31)).
    - by rewrite Z.mul_pow2_bits_low.
    - rewrite (Z.bits_above_log2 (x / 2 ^ 33)); [apply andb_false_r|lia|].
      destruct (decide (x / 2 ^ 33 = 0)) as [->|]; [simpl; lia|].
      apply Z.log2_lt_pow2; [lia|].
      apply Z.lt_le_trans with (2 ^ 31); [lia|]. apply Z.pow_le_mono_r; lia. }
  rewrite Hland. lia.
Qed.

Lemma XXROTATE_range x : 0 <= x < 2 ^ 64 -> 0 <= CPython.XXROTATE x < 2 ^ 64.
Proof.
  intros Hx. rewrite XXROTATE_arith by done.
  pose proof (Z.mod_pos_bound x (2 ^ 33) ltac:(lia)).
  assert (0 <= x / 2 ^ 33 < 2 ^ 31).
  { split; [apply Z.div_pos; lia|]. apply Z.div_lt_upper_bound; lia. }
  lia.
Qed.

Lemma XXROTATE_inj x y :
  0 <= x < 2 ^ 64 -> 0 <= y < 2 ^ 64 ->
  CPython.XXROTATE x = CPython.XXROTATE y -> x = y.
Proof.
  intros Hx Hy. rewrite !XXROTATE_arith by done.
  pose proof (Z.div_mod x (2 ^ 33) ltac:(lia)).
  pose proof (Z.div_mod y (2 ^ 33) ltac:(lia)).
  pose proof (Z.mod_pos_bound x (2 ^ 33) ltac:(lia)).
  pose proof (Z.mod_pos_bound y (2 ^ 33) ltac:(lia)).
  assert (0 <= x / 2 ^ 33 < 2 ^ 31).
  { split; [apply Z.div_pos; lia|]. apply Z.div_lt_upper_bound; lia. }
  assert (0 <= y / 2 ^ 33 < 2 ^ 31).
  { split; [apply Z.div_pos; lia|]. apply Z.div_lt_upper_bound; lia. }
  lia.
Qed.

(** The hash of a one-element tuple tells the integers from 0 below
    [2 ^ 61 - 1] apart: every step of the mixing is one to one on 64 bits. *)
Lemma singleton_hash_inj i j :
  0 <= i < 2 ^ 61 - 1 -> 0 <= j < 2 ^ 61 - 1 ->
  CPython.tuplehash [i] = CPython.tuplehash [j] -> i = j.
Proof.
  assert (Hint : ∀ k, 0 <= k < 2 ^ 61 - 1 -> CPython.u64 (CPython.int_hash k) = k).
  { intros k Hk. unfold CPython.int_hash.
    rewrite Z.abs_eq, Z.mod_small by lia.
    destruct (decide (Z.sgn k * k = -1)) as [E|_]; [nia|].
    rewrite u64_small; [|nia]. destruct (Z.sgn_spec k) as [[? ->]|[[? ->]|[? ->]]]; lia. }
  set (mix := fun k =>
    CPython.u64
      (CPython.u64
         (CPython.XXROTATE (CPython.u64 (CPython.XXPRIME_5 + k * CPython.XXPRIME_2))
            * CPython.XXPRIME_1)
       + Z.lxor 1 (Z.lxor CPython.XXPRIME_5 3527539))).
  assert (Hhash : ∀ k, 0 <= k < 2 ^ 61 - 1 ->
            CPython.tuplehash [k] =
              if decide (mix k = 2 ^ 64 - 1) then 1546275796
              else CPython.signed64 (mix k)).
  { intros k Hk. unfold CPython.tuplehash. cbn [CPython.lanes length Z.of_nat].
    by rewrite Hint. }
  assert (Hmix : ∀ a b, 0 <= a < 2 ^ 64 -> 0 <= b < 2 ^ 64 -> mix a = mix b -> a = b).
  { intros a b Ha Hb E. unfold mix in E.
    rewrite !(Z.add_comm (CPython.u64 _)) in E.
    apply u64_add_cancel in E.
    rewrite !(u64_small (CPython.u64 _)) in E by apply u64_range.
    apply (u64_mul_cancel _ 614540362697595703) in E;
      [|done|apply XXROTATE_range, u64_range..].
    apply XXROTATE_inj in E; [|apply u64_range..].
    apply u64_add_cancel in E.
    by apply (u64_mul_cancel _ 839798700976720815) in E. }
  assert (Hplain : ∀ k, 0 <= k < 2 ^ 61 - 1 -> mix k ≠ 2 ^ 64 - 1).
  { intros k Hk E.
    assert (Hs : mix 9950010603462315946 = 2 ^ 64 - 1) by (vm_compute; reflexivity).
    rewrite <- Hs in E. apply Hmix in E; lia. }
  intros Hi Hj. rewrite !Hhash by done.
  destruct (decide (mix i = _)) as [E|_]; [by apply Hplain in E|].
  destruct (decide (mix j = _)) as [E|_]; [by apply Hplain in E|].
  intros E. apply Hmix; [lia..|].
  assert (0 <= mix i < 2 ^ 64) by apply u64_range.
  assert (0 <= mix j < 2 ^ 64) by apply u64_range.
  unfold CPython.signed64 in E.
  destruct (decide (mix i < 2 ^ 63)), (decide (mix j < 2 ^ 63)); lia.
Qed.

(** X16: from an empty cache, and with room for the nesting, [fib] returns
    the Fibonacci number of every [n] from 0 below [2 ^ 61 - 1]: the hashes
    of its arguments do not collide there. *)
Theorem fib_value_from_empty_cache limit n s :
  0 <= n < 2 ^ 61 - 1 -> (Z.to_nat n < limit)%nat -> cache s = ∅ ->
  ∃ s', call (fib limit) [n] [] s = (Returns (fib_value n), s') ∧
        cache s' !! CPython.tuplehash [n] = Some (fib_value n).
Proof.
  intros Hn Hlim Hempty.
  destruct (fib_returns_value n) with (limit := limit) (n := n) (s := s)
    as (s' & E & _ & Hk); [|lia|done| |by exists s'].
  - intros i j Hi Hj. apply singleton_hash_inj; lia.
  - intros k v _. by rewrite Hempty.
Qed.

(** * Runs that meet the hypotheses of the further properties *)

Lemma memo_conflates_equal_hashes_witness :
  hash [-1] = Some 8078679518589016365 ∧
  hash [-2] = Some 8078679518589016365 ∧
  call (memo (probe identity)) [-1] [] fresh =
    (Returns (-1), (call (memo (probe identity)) [-1] [] fresh).2) ∧
  call identity [-2] [] fresh = (Returns (-2), fresh) ∧
  call (memo (probe identity)) [-2] []
       (call (memo (probe identity)) [-1] [] fresh).2 =
    (Returns (-1), (call (memo (probe identity)) [-1] [] fresh).2).
Proof.
  assert (E : call (memo (probe identity)) [-1] [] fresh =
                (Returns (-1), (call (memo (probe identity)) [-1] [] fresh).2))
    by (vm_compute; reflexivity).
  split; [reflexivity|]. split; [reflexivity|]. split; [exact E|].
  split; [reflexivity|].
  exact (memo_conflates_equal_hashes identity [-1] [-2] [] []
           8078679518589016365 fresh (-1) _ eq_refl eq_refl E).
Defined.

Lemma memo_error_not_cached_witness :
  hash [1] = Some (CPython.tuplehash [1]) ∧
  cache (fresh : store Z) !! CPython.tuplehash [1] = None ∧
  (∀ s0, call boom [1] [] s0 = (Raises (Exception "boom"), s0)) ∧
  call (memo (probe boom)) [1] [] fresh =
    (Raises (Exception "boom"), set_ticks S fresh) ∧
  call (memo (probe boom)) [1] [] (set_ticks S fresh) =
    (Raises (Exception "boom"), set_ticks S (set_ticks S fresh)).
Proof.
  assert (Hc : cache (fresh : store Z) !! CPython.tuplehash [1] = None)
    by (vm_compute; reflexivity).
  destruct (memo_error_not_cached boom [1] [] (CPython.tuplehash [1])
              (Exception "boom") fresh (hash_int [1]) Hc (fun s0 => eq_refl))
    as (H1 & H2 & _).
  split; [reflexivity|]. split; [exact Hc|]. split; [reflexivity|].
  split; [exact H1|exact H2].
Defined.

Lemma memo_computes_witness :
  collision_free (fun args => args = [4; 3] ∨ args = [4; 3; 2]) ∧
  computes (fun args => args = [4; 3] ∨ args = [4; 3; 2]) (foldr Z.add 0)
    (n_ary foo_def) ∧
  ∃ s', call_each (memo (n_ary foo_def))
          (positional [[4; 3]; [4; 3; 2]; [4; 3]]) fresh =
          (Returns [7; 9; 7], s').
Proof.
  assert (HD : collision_free (fun args => args = [4; 3] ∨ args = [4; 3; 2])).
  { split.
    - intros a [->| ->]; eexists; reflexivity.
    - intros a b h [->| ->] [->| ->] Ha Hb; try reflexivity;
        vm_compute in Ha, Hb; congruence. }
  assert (Hf : computes (fun args => args = [4; 3] ∨ args = [4; 3; 2])
                 (foldr Z.add 0) (n_ary foo_def)).
  { intros args s [->| ->]; reflexivity. }
  split; [exact HD|]. split; [exact Hf|].
  destruct (proj2 (memo_computes _ _ _ HD Hf) [[4; 3]; [4; 3; 2]; [4; 3]] fresh)
    as (s' & E & _).
  - constructor; [by left|]. constructor; [by right|].
    constructor; [by left|]. constructor.
  - intros a h v _ _ Hv. vm_compute in Hv. discriminate.
  - exists s'. exact E.
Defined.

Lemma memo_caches_only_requests_witness :
  leaves_cache (constant 7) ∧
  (size (cache (call_each (memo (constant 7%Z))
                  [([1%Z], []); ([2%Z], []); ([1%Z], [])] fresh).2) <= 0 + 3)%nat.
Proof.
  assert (Hf : leaves_cache (constant 7)) by (by intros args kw s o s' [= _ <-]).
  split; [exact Hf|].
  destruct (call_each (memo (constant 7)) [([1], []); ([2], []); ([1], [])] fresh)
    as [o s'] eqn:E.
  exact (proj2 (memo_caches_only_requests _ _ _ _ _ Hf E)).
Defined.

Lemma countcalls_counts_returns_witness :
  leaves_calls (constant 7) ∧
  call_each (countcalls (constant 7)) [([1], []); ([2], [])] fresh =
    (Returns [7; 7],
     (call_each (countcalls (constant 7)) [([1], []); ([2], [])] fresh).2) ∧
  calls (call_each (countcalls (constant 7)) [([1], []); ([2], [])] fresh).2
    = 0 + 2.
Proof.
  assert (Hf : leaves_calls (constant 7)) by (by intros args kw s o s' [= _ <-]).
  assert (E : call_each (countcalls (constant 7)) [([1], []); ([2], [])] fresh =
    (Returns [7; 7],
     (call_each (countcalls (constant 7)) [([1], []); ([2], [])] fresh).2))
    by (vm_compute; reflexivity).
  split; [exact Hf|]. split; [exact E|].
  exact (proj1 (proj1 (countcalls_counts_returns _ _ _ _ _ Hf E) [7; 7] eq_refl)).
Defined.

Lemma n_ary_invocations_witness :
  (∀ x y s0, call foo_def [x; y] [] s0 = (Returns (x + y), s0)) ∧
  call (n_ary (probe foo_def)) ([4; 3] ++ [2]) [] fresh =
    (Returns 9, set_ticks (fun t => (2 + t)%nat) fresh).
Proof.
  split; [reflexivity|].
  exact (n_ary_invocations foo_def Z.add [4; 3] 2 fresh (fun x y s0 => eq_refl)).
Defined.

Lemma refused_call_through_the_stack_witness :
  hash ([] : list Z) = Some (CPython.tuplehash []) ∧
  (([] : list Z) = [] ∨ ([] : kwargs Z) ≠ []) ∧
  cache (fresh : store Z) !! CPython.tuplehash [] = None ∧
  ∃ msg, call foo [] [] fresh = (Raises (TypeError msg), fresh) ∧
         (([] : kwargs Z) = [] -> msg = "foo() of empty sequence").
Proof.
  assert (Hc : cache (fresh : store Z) !! CPython.tuplehash [] = None)
    by (vm_compute; reflexivity).
  split; [reflexivity|]. split; [by left|]. split; [exact Hc|].
  exact (proj1 (refused_call_through_the_stack foo_def [] []
                  (CPython.tuplehash []) fresh eq_refl (or_introl eq_refl)) Hc).
Defined.

Lemma trace_refuses_other_arities_witness :
  length [1; 2] ≠ 1%nat ∧
  ∃ msg, call (trace "####" (probe (constant 0))) [1; 2] [] fresh =
           (Raises (TypeError msg), fresh).
Proof.
  assert (H : length [1; 2] ≠ 1%nat) by (simpl; lia).
  split; [exact H|].
  exact (trace_refuses_other_arities "####" (constant 0) [1; 2] [] fresh H).
Defined.


Lemma trace_brackets_the_call_witness :
  nests_well (constant 7) ∧
  call (trace "####" (constant 7)) [1] [] fresh =
    (Returns 7, (call (trace "####" (constant 7)) [1] [] fresh).2) ∧
  ∃ printed,
    stdout (call (trace "####" (constant 7)) [1] [] fresh).2 =
      [] ++ [" --> constant(1)"] ++ printed ++ [" <-- constant(1) ==  7"].
Proof.
  assert (Hf : nests_well (constant 7)).
  { intros args kw s v s' [= _ <-]. split; [done|]. exists []. by rewrite app_nil_r. }
  assert (E : call (trace "####" (constant 7)) [1] [] fresh =
    (Returns 7, (call (trace "####" (constant 7)) [1] [] fresh).2))
    by (vm_compute; reflexivity).
  split; [exact Hf|]. split; [exact E|].
  exact (proj2 (proj1 (trace_brackets_the_call "####" (constant 7) Hf) _ _ _ _ _ E)).
Defined.

Lemma foo_adds_bar_multiplies_witness :
  [4; 3; 2] ≠ [] ∧
  cache (fresh : store Z) !! CPython.tuplehash [4; 3; 2] = None ∧
  call foo [4; 3; 2] [] fresh =
    (Returns 9,
     set_calls (fun c => c + 1)
       (set_cache (fun c => <[CPython.tuplehash [4; 3; 2] := 9]> c) fresh)) ∧
  call bar [4; 3; 2] [] fresh =
    (Returns 24,
     set_calls (fun c => c + 1)
       (set_cache (fun c => <[CPython.tuplehash [4; 3; 2] := 24]> c) fresh)).
Proof.
  assert (Hne : [4; 3; 2] ≠ []) by discriminate.
  assert (Hc : cache (fresh : store Z) !! CPython.tuplehash [4; 3; 2] = None)
    by (vm_compute; reflexivity).
  split; [exact Hne|]. split; [exact Hc|].
  exact (foo_adds_bar_multiplies [4; 3; 2] fresh Hne Hc).
Defined.

Lemma fib_computes_fibonacci_witness :
  fib_keys_distinct 3 ∧
  fib_cache_sound 3 (cache fresh) ∧
  ∃ s', call (fib 4) [3] [] fresh = (Returns 3, s').
Proof.
  assert (Hinj : fib_keys_distinct 3).
  { intros i j Hi Hj E.
    assert (i = 0 ∨ i = 1 ∨ i = 2 ∨ i = 3) as Hi' by lia.
    assert (j = 0 ∨ j = 1 ∨ j = 2 ∨ j = 3) as Hj' by lia.
    destruct Hi' as [->|[->|[->| ->]]], Hj' as [->|[->|[->| ->]]];
      try reflexivity; vm_compute in E; discriminate. }
  assert (Hs : fib_cache_sound 3 (cache fresh)).
  { intros k v _ Hv. vm_compute in Hv. discriminate. }
  split; [exact Hinj|]. split; [exact Hs|].
  destruct (proj1 (fib_computes_fibonacci 3 4 3 fresh Hinj
                     ltac:(lia) ltac:(vm_compute; lia) Hs))
    as (s' & E & _).
  exists s'. exact E.
Defined.

Lemma fib_prints_two_lines_per_call_witness :
  (Z.to_nat 3 < 4)%nat ∧
  ∃ v (s' : store Z) (k : nat) printed,
    call (fib 4) [3] [] fresh = (Returns v, s') ∧
    calls s' = 0 + Z.of_nat k ∧
    stdout s' = [] ++ printed ∧
    length printed = (2 * k)%nat.
Proof.
  assert (H : (Z.to_nat 3 < 4)%nat) by (vm_compute; lia).
  split; [exact H|]. exact (fib_prints_two_lines_per_call 4 3 fresh H).
Defined.

Lemma fib_calls_linear_witness :
  (Z.to_nat 3 < 4)%nat ∧
  cache (fresh : store Z) = ∅ ∧
  ∃ v (s' : store Z),
    call (fib 4) [3] [] fresh = (Returns v, s') ∧
    calls s' = 0 + 5 ∧
    (2 <= 3 -> ∀ j, 0 <= j <= 3 -> is_Some (cache s' !! CPython.tuplehash [j])).
Proof.
  assert (H : (Z.to_nat 3 < 4)%nat) by (vm_compute; lia).
  split; [exact H|]. split; [reflexivity|].
  exact (fib_calls_linear 4 3 fresh H eq_refl).
Defined.

Lemma fib_value_from_empty_cache_witness :
  0 <= 20 < 2 ^ 61 - 1 ∧
  (Z.to_nat 20 < 21)%nat ∧
  cache (fresh : store Z) = ∅ ∧
  ∃ s', call (fib 21) [20] [] fresh = (Returns 10946, s') ∧
        cache s' !! CPython.tuplehash [20] = Some 10946.
Proof.
  assert (H1 : 0 <= 20 < 2 ^ 61 - 1) by lia.
  assert (H2 : (Z.to_nat 20 < 21)%nat) by (vm_compute; lia).
  split; [exact H1|]. split; [exact H2|]. split; [reflexivity|].
  exact (fib_value_from_empty_cache 21 20 fresh H1 H2 eq_refl).
Defined.

Lemma memo_one_invocation_per_entry_witness :
  (∀ (args : list Z) (kw : kwargs Z) s0,
     ∃ v, call (constant 7) args kw s0 = (Returns v, s0)) ∧
  (ticks (call_each (memo (probe (constant 7%Z)))
            [([1%Z], []); ([2%Z], []); ([1%Z], [])] fresh).2 + 0
   = 0 + size (cache (call_each (memo (probe (constant 7%Z)))
                        [([1%Z], []); ([2%Z], []); ([1%Z], [])] fresh).2))%nat ∧
  ticks (call_each (memo (probe (constant 7)))
           [([1], []); ([2], []); ([1], [])] fresh).2 = 2%nat.
Proof.
  assert (Hf : ∀ (args : list Z) (kw : kwargs Z) s0,
            ∃ v, call (constant 7) args kw s0 = (Returns v, s0))
    by (intros; by exists 7).
  split; [exact Hf|]. split; [|vm_compute; reflexivity].
  destruct (call_each (memo (probe (constant 7)))
              [([1], []); ([2], []); ([1], [])] fresh) as [o s'] eqn:E.
  exact (memo_one_invocation_per_entry _ _ _ _ _ Hf E).
Defined.

Lemma disable_decorator_transparent_witness :
  (decorator foo_def = disable foo_def ∨ decorator foo_def = decorator foo_def) ∧
  call (countcalls (decorator foo_def)) [4; 3] [] fresh =
    call (countcalls foo_def) [4; 3] [] fresh ∧
  call (memo (decorator foo_def)) [4; 3] [] fresh =
    call (memo foo_def) [4; 3] [] fresh ∧
  call (trace "####" (decorator foo_def)) [4] [] fresh =
    call (trace "####" foo_def) [4] [] fresh.
Proof.
  assert (H : decorator foo_def = disable foo_def
              ∨ decorator foo_def = decorator foo_def) by (by right).
  pose proof (proj2 (proj2 (proj2 (proj2 (disable_decorator_transparent foo_def))))
                (decorator foo_def) H) as Hg.
  split; [exact H|].
  split; [exact (proj1 (Hg "####" [4; 3] [] fresh))|].
  split; [exact (proj1 (proj2 (Hg "####" [4; 3] [] fresh)))|].
  exact (proj2 (proj2 (Hg "####" [4] [] fresh))).
Defined.

(** C2 as stated does not hold.  [boom] is deterministic and its argument
    hashable: neither call returns, and it is invoked by both.  The body of
    [fib] is deterministic too: both calls return 3, and the body has been
    invoked four times, for 3, 2, 1 and 0, since it calls itself through the
    wrapper. *)
Lemma memo_twice_invokes_more :
  ((call (memo (probe boom)) [1] [] fresh).1 = Raises (Exception "boom") ∧
   (call (memo (probe boom)) [1] []
      (call (memo (probe boom)) [1] [] fresh).2).1 = Raises (Exception "boom") ∧
   ticks (call (memo (probe boom)) [1] []
            (call (memo (probe boom)) [1] [] fresh).2).2 = 2%nat) ∧
  ((call (memo (probe (fib_def (fib_counting_body 3)))) [3] [] fresh).1
     = Returns 3 ∧
   (call (memo (probe (fib_def (fib_counting_body 3)))) [3] []
      (call (memo (probe (fib_def (fib_counting_body 3)))) [3] [] fresh).2).1
     = Returns 3 ∧
   ticks (call (memo (probe (fib_def (fib_counting_body 3)))) [3] []
            (call (memo (probe (fib_def (fib_counting_body 3)))) [3] [] fresh).2).2
     = 4%nat).
Proof. repeat split; vm_compute; reflexivity. Qed.

(** C9 as stated does not hold.  [pick(1)] raises, nothing is cached, and
    the second call, [pick(1, k=20)], invokes [pick] again and returns its
    own result. *)
Lemma memo_kwargs_after_error :
  (∃ e, (call (memo (probe pick)) [1] [] fresh).1 = Raises e) ∧
  ticks (call (memo (probe pick)) [1] [] fresh).2 = 1%nat ∧
  (call (memo (probe pick)) [1] [("k", 20)]
     (call (memo (probe pick)) [1] [] fresh).2).1 = Returns 20 ∧
  ticks (call (memo (probe pick)) [1] [("k", 20)]
           (call (memo (probe pick)) [1] [] fresh).2).2 = 2%nat.
Proof.
  split; [vm_compute; by eexists|]. repeat split; vm_compute; reflexivity.
Qed.
